(** * blogctl: the generation pipeline of the photo blog engine

    A shallow embedding of package [engine] (DiscoverPosts, ReadImage,
    ReadPartials, CompileTemplate, Render, WriteTemplate, CopyStatics,
    Generate, CreateOutputPath) and of [model.Meta], with the statements
    the specification makes about them.

    Conventions.
    - A path is the list of its components: [filepath.Join] appends one
      component, [filepath.Base] is the last one, and the empty string is
      the empty list.
    - The file system is a tree of directories and files; every directory
      keeps its entries in listing order.
    - A Go [error] result is [option error] ([None] is [nil]); a result
      [(T, error)] is [result T].
    - Calls of the logger ([e.Log.Infof], [e.Log.SyncInfof]) write to a side
      channel only and are left out.
    - The helpers the engine calls from other files of the repository
      (MakeDir, Copy, GetFileInfos, ReadYAML, HasExtension, the package-level
      ReadImage, Post.Slug, the constants) and the libraries behind them
      (YAML, image decoding, html/template, exception) are members of the
      classes [ImageModel] and [Host]. *)

From Stdlib Require Import List String Ascii ZArith Bool Lia.
Import ListNotations.
Local Open Scope string_scope.
Local Open Scope list_scope.

Set Implicit Arguments.
Set Warnings "-register-all".

(** ** Paths *)

Abbreviation Path := (list string) (only parsing).

Definition Join (p : Path) (name : string) : Path := p ++ [name].

Definition Base (p : Path) : string := last p ".".

Definition Path_eqb (p q : Path) : bool :=
  if list_eq_dec string_dec p q then true else false.

(** ** Times

    An instant is counted from Go's zero time, so [Time.IsZero] is the
    test against [0]. *)

Definition Time := Z.

Definition Time_zero : Time := 0%Z.

Definition Time_IsZero (t : Time) : bool := (t =? 0)%Z.

(** ** Errors *)

Inductive error : Type :=
| PathError (op : string) (path : Path)
    (* an error of an [os] or [ioutil] primitive *)
| Exception (class : string) (message : Path)
    (* [exception.New(class).WithMessage(path)] *)
| Wrapped (inner : error)
    (* [exception.New(err)] *)
| LibraryError (description : string)
    (* an error of the YAML, image or template library *).

Definition result (A : Type) : Type := (error + A)%type.

Definition NotADirectoryError (path : Path) : error :=
  Exception "not a directory" path.

Definition NoFilesError (path : Path) : error :=
  Exception "no child files found" path.

Definition NoImageFoundError (path : Path) : error :=
  Exception "no images found" path.

(** ** The file system *)

Inductive Node : Type :=
| FileNode (modTime : Time) (data : string)
| DirNode (modTime : Time) (entries : list (string * Node)).

Record FileInfo : Type := mkFileInfo {
  Name : string;
  ModTime : Time;
  IsDir : bool
}.

Definition infoOf (name : string) (n : Node) : FileInfo :=
  match n with
  | FileNode t _ => mkFileInfo name t false
  | DirNode t _ => mkFileInfo name t true
  end.

Fixpoint entry (name : string) (entries : list (string * Node)) : option Node :=
  match entries with
  | [] => None
  | (n, child) :: rest => if String.eqb n name then Some child else entry name rest
  end.

Fixpoint lookup (p : Path) (n : Node) : option Node :=
  match p with
  | [] => Some n
  | name :: rest =>
      match n with
      | FileNode _ _ => None
      | DirNode _ entries =>
          match entry name entries with
          | Some child => lookup rest child
          | None => None
          end
      end
  end.

(** [os.Stat] and [os.Lstat]: the tree has no symbolic links, so the two
    agree. *)
Definition os_Stat (p : Path) (fs : Node) : result FileInfo :=
  match lookup p fs with
  | Some n => inr (infoOf (Base p) n)
  | None => inl (PathError "stat" p)
  end.

(** [ioutil.ReadFile]. *)
Definition ioutil_ReadFile (p : Path) (fs : Node) : result string :=
  match lookup p fs with
  | Some (FileNode _ data) => inr data
  | Some (DirNode _ _) => inl (PathError "read" p)
  | None => inl (PathError "open" p)
  end.

(** [filepath.Walk]: the root first, then every entry of a directory in
    listing order, each directory before its entries; the first error the
    callback returns stops the walk.  The callback of [DiscoverPosts] never
    returns [filepath.SkipDir], which is therefore not an [error] here. *)

Definition WalkFunc (S : Type) : Type :=
  Path -> option FileInfo -> option error -> S -> option error * S.

Fixpoint walk (S : Type) (path : Path) (name : string) (n : Node)
    (walkFn : WalkFunc S) (s : S) {struct n} : option error * S :=
  match n with
  | FileNode _ _ => walkFn path (Some (infoOf name n)) None s
  | DirNode _ entries =>
      match walkFn path (Some (infoOf name n)) None s with
      | (Some err, s1) => (Some err, s1)
      | (None, s1) =>
          (fix walkEntries (es : list (string * Node)) (s : S) {struct es}
             : option error * S :=
             match es with
             | [] => (None, s)
             | (nm, child) :: es' =>
                 match walk (Join path nm) nm child walkFn s with
                 | (Some err, s') => (Some err, s')
                 | (None, s') => walkEntries es' s'
                 end
             end) entries s1
      end
  end.

Definition Walk (S : Type) (root : Path) (walkFn : WalkFunc S) (fs : Node) (s : S)
    : option error * S :=
  match lookup root fs with
  | None => walkFn root None (Some (PathError "lstat" root)) s
  | Some n => walk root (Base root) n walkFn s
  end.

(** ** model.Meta and model.Post *)

Record Meta : Type := mkMeta {
  Posted : Time;
  Title : string;
  Location : string;
  Comments : string;
  Tags : list string;
  Extra : list (string * string)
}.

Definition Meta_zero : Meta := mkMeta Time_zero EmptyString EmptyString EmptyString [] [].

Definition setPosted (t : Time) (m : Meta) : Meta :=
  mkMeta t (Title m) (Location m) (Comments m) (Tags m) (Extra m).

(** The type [model.Image] with its zero value and its [IsZero] method. *)
Class ImageModel : Type := {
  Image : Type;
  Image_zero : Image;
  Image_IsZero : Image -> bool
}.

Section PostModel.
Context {IM : ImageModel}.

Record Post : Type := mkPost {
  Post_Original : Path;
  Post_File : string;
  Post_Image : Image;
  Post_Meta : Meta
}.

Definition Post_zero : Post := mkPost [] EmptyString Image_zero Meta_zero.

(** The resolved configuration, as its [...OrDefault] accessors return
    it. *)
Record Config : Type := mkConfig {
  ImagesOrDefault : Path;
  OutputOrDefault : Path;
  Pages : list Path;
  PostOrDefault : Path;
  PartialsOrDefault : list Path;
  StaticsOrDefault : list Path
}.

Record ViewModel : Type := mkViewModel {
  VM_Config : Config;
  VM_Posts : list Post;
  VM_Post : Post;
  VM_Previous : Post;
  VM_Next : Post
}.
End PostModel.

(** ** What the engine is given

    The constants of package [constants], the helpers of package [engine]
    and of [model.Post] that the pipeline calls, and the libraries behind
    them.  A helper that changes the file system returns the new tree. *)

Class Host {IM : ImageModel} : Type := {
  (* package constants *)
  DiscoveryFileMeta : string;
  ImageExtensions : list string;
  (* helpers of package engine *)
  HasExtension : string -> list string -> bool;
  GetFileInfos : Path -> Node -> result (list FileInfo);
  ReadYAML : Path -> Meta -> Node -> result Meta;
  decodeImage : Path -> Image -> Node -> result Image;
    (* the package-level [ReadImage(path, *model.Image)] *)
  hostMakeDir : Path -> Node -> option error * Node;
  hostCopy : Path -> Path -> Node -> option error * Node;
  (* model.Post *)
  Slug : Post -> string;
  (* os.Create followed by the writes of the template execution *)
  os_Create : Path -> Node -> result Node;
  os_Write : Path -> string -> Node -> Node;
  (* html/template *)
  Template : Type;
  template_New : Template;
  Parse : Template -> string -> result Template;
  Execute : Template -> ViewModel -> string * option error;
  (* exception.New on an error that is not nil *)
  exception_wrap : error -> error
}.

(** Modelled from the spec: package [constants] is not among the sources;
    the output layout names the file written for a post
    [<output>/<slug>/index.html], as does the comment in [Render]. *)
Definition OutputFileIndex : string := "index.html".

(** [exception.New(err)]: [nil] stays [nil]. *)
Definition exception_New {IM : ImageModel} {H : Host} (err : option error)
    : option error :=
  option_map exception_wrap err.

(** ** The engine *)

(** The file system operations performed, in order. *)
Inductive Event {IM : ImageModel} {H : Host} : Type :=
| EvMakeDir (path : Path)
| EvWriteTemplate (tpl : Template) (outputPath : Path) (data : ViewModel)
| EvCopy (source destination : Path).

Record State {IM : ImageModel} {H : Host} : Type := mkState {
  fs : Node;
  ops : list Event
}.

Section Engine.
Context {IM : ImageModel} {H : Host}.

Definition Action : Type := State -> option error * State.

Definition record (ev : Event) (st : State) : State :=
  mkState (fs st) (ops st ++ [ev]).

Definition MakeDir (path : Path) : Action := fun st =>
  let st := record (EvMakeDir path) st in
  let (err, fs') := hostMakeDir path (fs st) in
  (err, mkState fs' (ops st)).

Definition Copy (source destination : Path) : Action := fun st =>
  let st := record (EvCopy source destination) st in
  let (err, fs') := hostCopy source destination (fs st) in
  (err, mkState fs' (ops st)).

Variable e : Config.

(** CreateOutputPath creates the output path if it doesn't exist. *)
Definition CreateOutputPath : Action := fun st =>
  match os_Stat (OutputOrDefault e) (fs st) with
  | inl _ =>
      let (err, st') := MakeDir (OutputOrDefault e) st in
      (exception_New err, st')
  | inr _ => (None, st)
  end.

(** One round of the loop of [ReadImage] over the listing; the
    accumulator is [post] and [modTime]. *)
Definition ReadImage_file (path : Path) (fs : Node)
    (acc : Post * Time) (fi : FileInfo) : result (Post * Time) :=
  let (post, modTime) := acc in
  let name := Name fi in
  if String.eqb name DiscoveryFileMeta then
    match ReadYAML (Join path name) (Post_Meta post) fs with
    | inl err => inl err
    | inr meta =>
        inr (mkPost (Post_Original post) (Post_File post) (Post_Image post) meta,
             modTime)
    end
  else if HasExtension name ImageExtensions && Image_IsZero (Post_Image post) then
    let original := Join path name in
    match decodeImage original (Post_Image post) fs with
    | inl err => inl err
    | inr image => inr (mkPost original name image (Post_Meta post), ModTime fi)
    end
  else inr acc.

Fixpoint ReadImage_loop (path : Path) (fs : Node)
    (files : list FileInfo) (acc : Post * Time) : result (Post * Time) :=
  match files with
  | [] => inr acc
  | fi :: rest =>
      match ReadImage_file path fs acc fi with
      | inl err => inl err
      | inr acc' => ReadImage_loop path fs rest acc'
      end
  end.

(** [ReadImage] from the listing on: the emptiness test, the loop, the
    default of [Meta.Posted] and the test for an image. *)
Definition ReadImage_files (path : Path) (fs : Node) (files : list FileInfo)
    : result Post :=
  if (Z.of_nat (List.length files) =? 0)%Z then inl (NoFilesError path)
  else
    match ReadImage_loop path fs files (Post_zero, Time_zero) with
    | inl err => inl err
    | inr (post, modTime) =>
        let post :=
          if Time_IsZero (Posted (Post_Meta post))
          then mkPost (Post_Original post) (Post_File post) (Post_Image post)
                      (setPosted modTime (Post_Meta post))
          else post in
        if Path_eqb (Post_Original post) [] then inl (NoImageFoundError path)
        else inr post
    end.

(** ReadImage reads post metadata from a folder. *)
Definition ReadImage (path : Path) (fs : Node) : result Post :=
  match os_Stat path fs with
  | inl err => inl err
  | inr stat =>
      if negb (IsDir stat) then inl (NotADirectoryError path)
      else
        match GetFileInfos path fs with
        | inl err => inl err
        | inr files => ReadImage_files path fs files
        end
  end.

(** The callback [DiscoverPosts] hands to [filepath.Walk]; [info] is nil
    only together with an error. *)
Definition DiscoverPosts_visit (imagesPath : Path) (fs : Node) : WalkFunc (list Post) :=
  fun currentPath info err posts =>
    match err with
    | Some err => (Some err, posts)
    | None =>
        if Path_eqb currentPath imagesPath then (None, posts)
        else
          match info with
          | Some info =>
              if IsDir info then
                match ReadImage currentPath fs with
                | inl err => (Some err, posts)
                | inr post => (None, posts ++ [post])
                end
              else (None, posts)
          | None => (None, posts)
          end
    end.

(** DiscoverPosts finds posts and returns an array of posts. *)
Definition DiscoverPosts (fs : Node) : result (list Post) :=
  let imagesPath := ImagesOrDefault e in
  match Walk imagesPath (DiscoverPosts_visit imagesPath fs) fs [] with
  | (Some err, _) => inl err
  | (None, posts) => inr posts
  end.

(** ReadPartials reads all the partials named in the config. *)
Fixpoint ReadPartials_loop (paths : list Path) (fs : Node) (partials : list string)
    : result (list string) :=
  match paths with
  | [] => inr partials
  | partialPath :: rest =>
      match ioutil_ReadFile partialPath fs with
      | inl err => inl (exception_wrap err)
      | inr contents => ReadPartials_loop rest fs (partials ++ [contents])
      end
  end.

Definition ReadPartials (fs : Node) : result (list string) :=
  ReadPartials_loop (PartialsOrDefault e) fs [].

(** CompileTemplate compiles a template. *)
Fixpoint CompileTemplate_partials (tmp : Template) (partials : list string)
    : result Template :=
  match partials with
  | [] => inr tmp
  | partial :: rest =>
      match Parse tmp partial with
      | inl err => inl (exception_wrap err)
      | inr tmp' => CompileTemplate_partials tmp' rest
      end
  end.

Definition CompileTemplate (templatePath : Path) (partials : list string) (fs : Node)
    : result Template :=
  match ioutil_ReadFile templatePath fs with
  | inl err => inl (exception_wrap err)
  | inr contents =>
      match CompileTemplate_partials template_New partials with
      | inl err => inl err
      | inr tmp =>
          match Parse tmp contents with
          | inl err => inl (exception_wrap err)
          | inr final => inr final
          end
      end
  end.

(** WriteTemplate writes a template to a given path with a given data
    viewmodel. *)
Definition WriteTemplate (tpl : Template) (outputPath : Path) (data : ViewModel)
    : Action := fun st =>
  let st := record (EvWriteTemplate tpl outputPath data) st in
  match os_Create outputPath (fs st) with
  | inl err => (Some err, st)
  | inr fs1 =>
      let (output, err) := Execute tpl data in
      (exception_New err, mkState (os_Write outputPath output fs1) (ops st))
  end.

(** [posts[i]]; the loop of [Render] only indexes inside the slice. *)
Definition index_posts (posts : list Post) (i : Z) : Post :=
  nth (Z.to_nat i) posts Post_zero.

(** The loop of [Render] over the configured pages. *)
Fixpoint Render_pages (outputPath : Path) (partials : list string)
    (posts : list Post) (pages : list Path) : Action := fun st =>
  match pages with
  | [] => (None, st)
  | pagePath :: rest =>
      match CompileTemplate pagePath partials (fs st) with
      | inl err => (Some err, st)
      | inr page =>
          let pageOutputPath := Join outputPath (Base pagePath) in
          match WriteTemplate page pageOutputPath
                  (mkViewModel e posts Post_zero Post_zero Post_zero) st with
          | (Some err, st1) => (Some err, st1)
          | (None, st1) => Render_pages outputPath partials posts rest st1
          end
      end
  end.

(** The view model of the post at [index]. *)
Definition Render_postData (posts : list Post) (index : Z) (post : Post)
    : ViewModel :=
  let previous :=
    if (index >? 0)%Z then index_posts posts (index - 1) else Post_zero in
  let next :=
    if (index <? Z.of_nat (List.length posts) - 1)%Z
    then index_posts posts (index + 1) else Post_zero in
  mkViewModel e [] post previous next.

(** The loop of [Render] over the posts: [rest] is what is left of
    [posts], and [index] the index of its head. *)
Fixpoint Render_posts (outputPath : Path) (postTemplate : Template)
    (posts : list Post) (index : Z) (rest : list Post) : Action := fun st =>
  match rest with
  | [] => (None, st)
  | post :: rest' =>
      let slugPath := Join outputPath (Slug post) in
      match MakeDir slugPath st with
      | (Some err, st1) => (exception_New (Some err), st1)
      | (None, st1) =>
          match WriteTemplate postTemplate (Join slugPath OutputFileIndex)
                  (Render_postData posts index post) st1 with
          | (Some err, st2) => (Some err, st2)
          | (None, st2) =>
              match Copy (Post_Original post)
                      (Join slugPath (Base (Post_Original post))) st2 with
              | (Some err, st3) => (Some err, st3)
              | (None, st3) =>
                  Render_posts outputPath postTemplate posts (index + 1) rest' st3
              end
          end
      end
  end.

(** Render writes the templates out for each of the posts. *)
Definition Render (posts : list Post) : Action := fun st =>
  let outputPath := OutputOrDefault e in
  match ReadPartials (fs st) with
  | inl err => (Some err, st)
  | inr partials =>
      match Render_pages outputPath partials posts (Pages e) st with
      | (Some err, st1) => (Some err, st1)
      | (None, st1) =>
          let postTemplatePath := PostOrDefault e in
          match CompileTemplate postTemplatePath partials (fs st1) with
          | inl err => (Some err, st1)
          | inr postTemplate =>
              Render_posts outputPath postTemplate posts 0 posts st1
          end
      end
  end.

(** CopyStatics copies static files to the output directory. *)
Fixpoint CopyStatics_loop (outputPath : Path) (staticPaths : list Path) : Action :=
  fun st =>
  match staticPaths with
  | [] => (None, st)
  | staticPath :: rest =>
      match Copy staticPath outputPath st with
      | (Some err, st1) => (Some err, st1)
      | (None, st1) => CopyStatics_loop outputPath rest st1
      end
  end.

Definition CopyStatics : Action :=
  CopyStatics_loop (OutputOrDefault e) (StaticsOrDefault e).

(** Generate generates the blog to the given output directory. *)
Definition Generate : Action := fun st =>
  match DiscoverPosts (fs st) with
  | inl err => (Some err, st)
  | inr posts =>
      match CreateOutputPath st with
      | (Some err, st1) => (Some err, st1)
      | (None, st1) =>
          match Render posts st1 with
          | (Some err, st2) => (Some err, st2)
          | (None, st2) =>
              match CopyStatics st2 with
              | (Some err, st3) => (Some err, st3)
              | (None, st3) => (None, st3)
              end
          end
      end
  end.
End Engine.

(** ** A host over the tree

    An implementation of [Host] that runs: files are byte strings, an image
    decodes to its size, metadata is a list of [key: value] lines, and the
    template namespace follows html/template. *)

Module TreeHost.

(** *** Writing to the tree *)

Fixpoint setEntry (name : string) (child : Node) (es : list (string * Node))
    : list (string * Node) :=
  match es with
  | [] => [(name, child)]
  | (n, c) :: rest =>
      if String.eqb n name then (name, child) :: rest
      else (n, c) :: setEntry name child rest
  end.

(** [mkdir -p]: fails when a component of the path is a file. *)
Fixpoint mkdirAll (p : Path) (n : Node) : option Node :=
  match n with
  | FileNode _ _ => None
  | DirNode t es =>
      match p with
      | [] => Some n
      | name :: rest =>
          let child :=
            match entry name es with
            | Some c => c
            | None => DirNode Time_zero []
            end in
          match mkdirAll rest child with
          | Some c' => Some (DirNode t (setEntry name c' es))
          | None => None
          end
      end
  end.

(** Creates or truncates the file at [p]; its directory must exist. *)
Fixpoint putFile (p : Path) (data : string) (n : Node) : option Node :=
  match n with
  | FileNode _ _ => None
  | DirNode t es =>
      match p with
      | [] => None
      | name :: rest =>
          match rest with
          | [] =>
              match entry name es with
              | Some (DirNode _ _) => None
              | _ => Some (DirNode t (setEntry name (FileNode Time_zero data) es))
              end
          | _ :: _ =>
              match entry name es with
              | Some c =>
                  match putFile rest data c with
                  | Some c' => Some (DirNode t (setEntry name c' es))
                  | None => None
                  end
              | None => None
              end
          end
      end
  end.

Definition makeDir (p : Path) (fs : Node) : option error * Node :=
  match mkdirAll p fs with
  | Some fs' => (None, fs')
  | None => (Some (PathError "mkdir" p), fs)
  end.

Definition create (p : Path) (fs : Node) : result Node :=
  match putFile p EmptyString fs with
  | Some fs' => inr fs'
  | None => inl (PathError "open" p)
  end.

Definition write (p : Path) (data : string) (fs : Node) : Node :=
  match putFile p data fs with
  | Some fs' => fs'
  | None => fs
  end.

Definition copy (source destination : Path) (fs : Node) : option error * Node :=
  match ioutil_ReadFile source fs with
  | inl err => (Some err, fs)
  | inr data =>
      match putFile destination data fs with
      | Some fs' => (None, fs')
      | None => (Some (PathError "open" destination), fs)
      end
  end.

Definition listDir (p : Path) (fs : Node) : result (list FileInfo) :=
  match lookup p fs with
  | Some (DirNode _ es) => inr (map (fun nc => infoOf (fst nc) (snd nc)) es)
  | _ => inl (PathError "readdir" p)
  end.

(** *** Extensions *)

Fixpoint endsWith (suffix s : string) : bool :=
  if String.eqb suffix s then true
  else
    match s with
    | EmptyString => false
    | String _ rest => endsWith suffix rest
    end.

Definition hasExtension (name : string) (extensions : list string) : bool :=
  existsb (fun ext => endsWith ext name) extensions.

(** *** Images *)

#[global] Instance image : ImageModel := {|
  Image := Z;
  Image_zero := 0%Z;
  Image_IsZero := fun i => (i =? 0)%Z
|}.

Definition decode (p : Path) (_ : Z) (fs : Node) : result Z :=
  match ioutil_ReadFile p fs with
  | inl err => inl err
  | inr data =>
      if String.eqb data EmptyString then inl (LibraryError "image: unknown format")
      else inr (Z.of_nat (String.length data))
  end.

(** *** Metadata *)

Definition newline : string := String (ascii_of_nat 10) EmptyString.

Fixpoint lines (s : string) (current : string) : list string :=
  match s with
  | EmptyString => if String.eqb current EmptyString then [] else [current]
  | String c rest =>
      if Ascii.eqb c (ascii_of_nat 10) then current :: lines rest EmptyString
      else lines rest (current ++ String c EmptyString)%string
  end.

Fixpoint digits (s : string) (acc : Z) : option Z :=
  match s with
  | EmptyString => Some acc
  | String c rest =>
      let n := nat_of_ascii c in
      if andb (48 <=? n)%nat (n <=? 57)%nat
      then digits rest (10 * acc + Z.of_nat (n - 48))%Z
      else None
  end.

Definition after (prefix s : string) : option string :=
  if String.prefix prefix s
  then Some (substring (String.length prefix) (String.length s) s)
  else None.

Definition setTitle (title : string) (m : Meta) : Meta :=
  mkMeta (Posted m) title (Location m) (Comments m) (Tags m) (Extra m).

Fixpoint unmarshal (ls : list string) (m : Meta) : result Meta :=
  match ls with
  | [] => inr m
  | l :: rest =>
      match after "posted: " l, after "title: " l with
      | Some v, _ =>
          match digits v 0%Z with
          | Some t => unmarshal rest (setPosted t m)
          | None => inl (LibraryError "yaml: cannot unmarshal into time.Time")
          end
      | None, Some v => unmarshal rest (setTitle v m)
      | None, None => inl (LibraryError "yaml: unmarshal error")
      end
  end.

Definition readYAML (p : Path) (m : Meta) (fs : Node) : result Meta :=
  match ioutil_ReadFile p fs with
  | inl err => inl err
  | inr data => unmarshal (lines data EmptyString) m
  end.

(** *** Templates

    html/template: a source defines named templates with
    [{{define "name"}}...{{end}}]; the text outside the definitions is the
    body of the template being parsed, named by the empty string by [template.New].
    Defining a name twice in one source is an error; a definition parsed
    by a later call of [Parse] replaces the one of an earlier call, unless
    the new body is empty. *)

Definition quote : string := String (ascii_of_nat 34) EmptyString.

Definition defineOpen : string := ("{{define " ++ quote)%string.
Definition defineClose : string := (quote ++ "}}")%string.
Definition defineEnd : string := "{{end}}".

Definition dropFirst (n : nat) (s : string) : string :=
  substring n (String.length s - n) s.

Fixpoint definitions (fuel : nat) (text top : string) (defs : list (string * string))
    : option (list (string * string) * string) :=
  match fuel with
  | O => None
  | S fuel' =>
      match index 0 defineOpen text with
      | None => Some (defs, (top ++ text)%string)
      | Some i =>
          let rest := dropFirst (i + String.length defineOpen) text in
          match index 0 defineClose rest with
          | None => None
          | Some j =>
              let name := substring 0 j rest in
              let rest := dropFirst (j + String.length defineClose) rest in
              match index 0 defineEnd rest with
              | None => None
              | Some k =>
                  if existsb (fun d => String.eqb (fst d) name) defs then None
                  else
                    definitions fuel'
                      (dropFirst (k + String.length defineEnd) rest)
                      (top ++ substring 0 i text)%string
                      (defs ++ [(name, substring 0 k rest)])
              end
          end
      end
  end.

Definition Namespace : Type := list (string * string).

Fixpoint body (name : string) (t : Namespace) : option string :=
  match t with
  | [] => None
  | (n, b) :: rest => if String.eqb n name then Some b else body name rest
  end.

Fixpoint redefine (name b : string) (t : Namespace) : Namespace :=
  match t with
  | [] => [(name, b)]
  | (n, old) :: rest =>
      if String.eqb n name then (name, b) :: rest
      else (n, old) :: redefine name b rest
  end.

Definition associate (t : Namespace) (def : string * string) : Namespace :=
  let (name, b) := def in
  match body name t with
  | Some _ => if String.eqb b EmptyString then t else redefine name b t
  | None => redefine name b t
  end.

Definition parse (t : Namespace) (text : string) : result Namespace :=
  match definitions (S (String.length text)) text EmptyString [] with
  | None => inl (LibraryError "template: parse error")
  | Some (defs, top) => inr (fold_left associate (defs ++ [(EmptyString, top)]) t)
  end.

Definition execute (t : Namespace) (_ : @ViewModel image) : string * option error :=
  match body EmptyString t with
  | Some b =>
      if String.eqb b EmptyString
      then (EmptyString, Some (LibraryError "template: incomplete or empty template"))
      else (b, None)
  | None => (EmptyString, Some (LibraryError "template: incomplete or empty template"))
  end.

Definition slug (post : @Post image) : string :=
  if String.eqb (Title (Post_Meta post)) EmptyString then Post_File post
  else Title (Post_Meta post).

#[global] Instance host : Host := {|
  DiscoveryFileMeta := "meta.yml";
  ImageExtensions := [".jpg"; ".jpeg"; ".png"];
  HasExtension := hasExtension;
  GetFileInfos := listDir;
  ReadYAML := readYAML;
  decodeImage := decode;
  hostMakeDir := makeDir;
  hostCopy := copy;
  Slug := slug;
  os_Create := create;
  os_Write := write;
  Template := Namespace;
  template_New := [];
  Parse := parse;
  Execute := execute;
  exception_wrap := Wrapped
|}.

End TreeHost.

(** ** Definitions the statements use *)

(** The directories strictly below the node [n] found at [path], at any
    depth, each before what it contains and in listing order. *)
Fixpoint directoriesBelow (path : Path) (n : Node) : list Path :=
  match n with
  | FileNode _ _ => []
  | DirNode _ entries =>
      (fix below (es : list (string * Node)) : list Path :=
         match es with
         | [] => []
         | (nm, child) :: es' =>
             (match child with
              | DirNode _ _ => [Join path nm]
              | FileNode _ _ => []
              end ++ directoriesBelow (Join path nm) child) ++ below es'
         end) entries
  end.

(** The immediate child directories of the node [n] found at [path]. *)
Definition childDirectories (path : Path) (n : Node) : list Path :=
  match n with
  | FileNode _ _ => []
  | DirNode _ entries =>
      map (fun nc => Join path (fst nc))
          (filter (fun nc => IsDir (infoOf (fst nc) (snd nc))) entries)
  end.

Section Statements.
Context {IM : ImageModel} {H : Host}.

(** [ReadImage] on each of [paths] in turn, appending to [posts]; the first
    error ends it. *)
Fixpoint ReadImage_each (paths : list Path) (fs : Node) (posts : list Post)
    : result (list Post) :=
  match paths with
  | [] => inr posts
  | p :: rest =>
      match ReadImage p fs with
      | inl err => inl err
      | inr post => ReadImage_each rest fs (posts ++ [post])
      end
  end.

(** What a walk hands back to [DiscoverPosts]. *)
Definition outcome (r : option error * list Post) : result (list Post) :=
  match r with
  | (Some err, _) => inl err
  | (None, posts) => inr posts
  end.

(** Fail-fast sequencing: [b] runs only when [a] returned no error. *)
Definition andThen (a b : Action) : Action := fun st =>
  match a st with
  | (Some err, st') => (Some err, st')
  | (None, st') => b st'
  end.

(** The entry is the metadata file. *)
Definition isMeta (fi : FileInfo) : bool :=
  String.eqb (Name fi) DiscoveryFileMeta.

(** The entry is a file with a recognized image extension (and not the
    metadata file, which is never read as an image). *)
Definition isImage (fi : FileInfo) : bool :=
  negb (isMeta fi) && HasExtension (Name fi) ImageExtensions.

(** [Parse] on each of [sources] in turn, into the one template [tmp]; the
    first error ends it. *)
Fixpoint Parse_each (tmp : Template) (sources : list string) : result Template :=
  match sources with
  | [] => inr tmp
  | source :: rest =>
      match Parse tmp source with
      | inl err => inl (exception_wrap err)
      | inr tmp' => Parse_each tmp' rest
      end
  end.

(** The neighbours of the post at index [i], as the specification words
    them. *)
Definition previousOf (posts : list Post) (i : nat) : Post :=
  if Nat.eqb i 0 then Post_zero else nth (i - 1) posts Post_zero.

Definition nextOf (posts : list Post) (i : nat) : Post :=
  if Nat.eqb i (List.length posts - 1) then Post_zero
  else nth (i + 1) posts Post_zero.

Definition postData (e : Config) (posts : list Post) (i : nat) : ViewModel :=
  mkViewModel e [] (nth i posts Post_zero) (previousOf posts i) (nextOf posts i).

Definition pageData (e : Config) (posts : list Post) : ViewModel :=
  mkViewModel e posts Post_zero Post_zero Post_zero.

(** The three operations on the output for the post at index [i]. *)
Definition postEvents (e : Config) (postTemplate : Template) (posts : list Post)
    (i : nat) : list Event :=
  let post := nth i posts Post_zero in
  let slugPath := OutputOrDefault e ++ [Slug post] in
  [ EvMakeDir slugPath;
    EvWriteTemplate postTemplate (slugPath ++ ["index.html"]) (postData e posts i);
    EvCopy (Post_Original post) (slugPath ++ [Base (Post_Original post)]) ].

(** The operation on the output for the page at [pagePath]. *)
Definition pageEvent (e : Config) (posts : list Post) (pagePath : Path) (ev : Event)
    : Prop :=
  exists page,
    ev = EvWriteTemplate page (OutputOrDefault e ++ [Base pagePath]) (pageData e posts).

(** The view models of the template executions among [evs]. *)
Fixpoint executed (evs : list Event) : list ViewModel :=
  match evs with
  | [] => []
  | EvWriteTemplate _ _ data :: rest => data :: executed rest
  | _ :: rest => executed rest
  end.

(** Two results agree when both are errors or both are the same value. *)
Definition agree (A : Type) (r1 r2 : result A) : Prop :=
  match r1, r2 with
  | inr a, inr b => a = b
  | inl _, inl _ => True
  | _, _ => False
  end.

(** The loop of [ReadImage] resumed on the result of an earlier part. *)
Definition ReadImage_from (path : Path) (fs : Node) (r : result (Post * Time))
    (files : list FileInfo) : result (Post * Time) :=
  match r with
  | inl err => inl err
  | inr acc => ReadImage_loop path fs files acc
  end.

(** What [ReadImage] does once the loop is over. *)
Definition ReadImage_finish (path : Path) (r : result (Post * Time)) : result Post :=
  match r with
  | inl err => inl err
  | inr (post, modTime) =>
      let post :=
        if Time_IsZero (Posted (Post_Meta post))
        then mkPost (Post_Original post) (Post_File post) (Post_Image post)
                    (setPosted modTime (Post_Meta post))
        else post in
      if Path_eqb (Post_Original post) [] then inl (NoImageFoundError path)
      else inr post
  end.

(** The image fields and the modification time kept by the loop of
    [ReadImage] come from the entry [img] of the listing. *)
Definition populatedFrom (path : Path) (files : list FileInfo) (acc : Post * Time)
    (img : FileInfo) : Prop :=
  In img files /\ isImage img = true /\
  Post_File (fst acc) = Name img /\
  Post_Original (fst acc) = Join path (Name img) /\
  snd acc = ModTime img.

(** [posts[i]] with the bounds check of Go: [None] is the run-time panic
    of an index out of range. *)
Definition index_checked (posts : list Post) (i : Z) : option Post :=
  if ((0 <=? i) && (i <? Z.of_nat (List.length posts)))%Z
  then nth_error posts (Z.to_nat i)
  else None.

(** The view model of the post at [index] as [Render] builds it, with the
    two slice accesses checked. *)
Definition Render_postData_checked (e : Config) (posts : list Post) (index : Z)
    (post : Post) : option ViewModel :=
  let previous :=
    if (index >? 0)%Z then index_checked posts (index - 1) else Some Post_zero in
  let next :=
    if (index <? Z.of_nat (List.length posts) - 1)%Z
    then index_checked posts (index + 1) else Some Post_zero in
  match previous, next with
  | Some previous, Some next => Some (mkViewModel e [] post previous next)
  | _, _ => None
  end.

(** The path an operation writes to. *)
Definition destination (ev : Event) : Path :=
  match ev with
  | EvMakeDir path => path
  | EvWriteTemplate _ outputPath _ => outputPath
  | EvCopy _ dest => dest
  end.

(** [p] is [root] with further components joined onto it (or [root]). *)
Definition below (root p : Path) : Prop := exists extra, p = root ++ extra.

(** The copies of the static assets at [paths]. *)
Definition copyEvents (e : Config) (paths : list Path) : list Event :=
  map (fun staticPath => EvCopy staticPath (OutputOrDefault e)) paths.

(** From [st] to [st'] the operations performed have only grown, and every
    new one writes to a path below the output path of [e]. *)
Definition grownBelow (e : Config) (st st' : State) : Prop :=
  exists evs,
    ops st' = ops st ++ evs /\
    Forall (fun ev => below (OutputOrDefault e) (destination ev)) evs.

End Statements.

(** ** Example trees *)

Module Examples.
Import TreeHost.
Local Open Scope Z_scope.

Definition jpeg (t : Time) : Node := FileNode t "JFIF".

(** [images/a] holds an image and a directory [b] with an image of its
    own. *)
Definition nested : Node :=
  DirNode 1
    [("images",
      DirNode 2
        [("a", DirNode 3 [("a.jpg", jpeg 10);
                          ("b", DirNode 4 [("b.jpg", jpeg 20)])])])].

Definition blog : Config :=
  mkConfig ["images"] ["out"] [["layout"; "index.html"]]
           ["layout"; "post.html"] [] [].

(** The output path is taken by a regular file. *)
Definition occupied : Node :=
  DirNode 1
    [("images", DirNode 2 [("a", DirNode 3 [("a.jpg", jpeg 10)])]);
     ("out", FileNode 5 "not a directory")].

(** A partial and a main template that both define the block [footer]. *)
Definition define (name text : string) : string :=
  ("{{define " ++ quote ++ name ++ quote ++ "}}" ++ text ++ "{{end}}")%string.

Definition footerPartial : string := define "footer" "old footer".

Definition layout : Node :=
  DirNode 1
    [("layout",
      DirNode 2
        [("post.html", FileNode 3 (define "footer" "new footer" ++ "<h1>post</h1>")%string)])].

(** A site with three posts, its layout and its output directory. *)
Definition site : Node :=
  DirNode 1
    [("images",
      DirNode 2
        [("a", DirNode 3 [("a.jpg", jpeg 10)]);
         ("b", DirNode 4 [("b.jpg", jpeg 20);
                          ("meta.yml",
                           FileNode 21 ("posted: 7" ++ newline ++ "title: Harbour")%string)]);
         ("c", DirNode 5 [("c.jpg", jpeg 30);
                          ("meta.yml", FileNode 31 "title: Sunset")])]);
     ("layout",
      DirNode 6
        [("index.html", FileNode 7 "<h1>index</h1>");
         ("post.html", FileNode 8 "<h1>post</h1>")]);
     ("out", DirNode 9 [])].

Definition start : State := mkState site [].

Definition sitePosts : list Post :=
  match DiscoverPosts blog site with
  | inr posts => posts
  | inl _ => []
  end.

(** Folders that are not plain posts: one with a text file only, one with
    a metadata file that does not parse and nothing else, one with two
    images. *)
Definition odd : Node :=
  DirNode 1
    [("images",
      DirNode 2
        [("notes", DirNode 3 [("notes.txt", FileNode 31 "to do")]);
         ("broken", DirNode 4 [("meta.yml", FileNode 41 "posted at noon")]);
         ("two", DirNode 5 [("1.jpg", FileNode 51 "first");
                            ("2.jpg", FileNode 52 "second one")])])].

Definition the (A : Type) (default : A) (r : result A) : A :=
  match r with
  | inr a => a
  | inl _ => default
  end.

Definition statOf (p : Path) (fs : Node) : FileInfo :=
  the (mkFileInfo EmptyString 0 false) (os_Stat p fs).

Definition listingOf (p : Path) (fs : Node) : list FileInfo :=
  the [] (listDir p fs).

Definition postOf (p : Path) (fs : Node) : Post :=
  the Post_zero (ReadImage p fs).

(** A layout with a partial, and a configuration that names it and one
    that is not there. *)
Definition themed : Node :=
  DirNode 1
    [("layout",
      DirNode 2
        [("header.html", FileNode 3 (define "header" "<header/>"));
         ("post.html", FileNode 4 "<h1>post</h1>")])].

Definition themedBlog : Config :=
  mkConfig ["images"] ["out"] [] ["layout"; "post.html"]
           [["layout"; "header.html"]; ["layout"; "missing.html"]] [].

(** A folder whose first image does not decode and whose second does. *)
Definition damaged : Node :=
  DirNode 1
    [("images",
      DirNode 2
        [("d", DirNode 3 [("1.jpg", FileNode 61 EmptyString);
                          ("2.jpg", jpeg 62)])])].

(** The images root is a regular file. *)
Definition flat : Node := DirNode 1 [("images", FileNode 2 "not a folder")].

End Examples.

(** ** Discovery *)

Section NodeInduction.
Variable P : Node -> Prop.
Hypothesis file_case : forall t data, P (FileNode t data).
Hypothesis dir_case :
  forall t entries, Forall (fun nc => P (snd nc)) entries -> P (DirNode t entries).

Fixpoint Node_nested_ind (n : Node) : P n :=
  match n with
  | FileNode t data => file_case t data
  | DirNode t entries =>
      dir_case t
        ((fix all (es : list (string * Node)) : Forall (fun nc => P (snd nc)) es :=
            match es with
            | [] => Forall_nil _
            | nc :: es' => Forall_cons nc (Node_nested_ind (snd nc)) (all es')
            end) entries)
  end.
End NodeInduction.

Section Discovery.
Context {IM : ImageModel} {H : Host}.

Lemma Path_eqb_refl (p : Path) : Path_eqb p p = true.
Proof.
  unfold Path_eqb. destruct (list_eq_dec string_dec p p); congruence.
Qed.

Lemma Path_eqb_below (root extra : Path) :
  extra <> [] -> Path_eqb (root ++ extra) root = false.
Proof.
  intros Hne. unfold Path_eqb.
  destruct (list_eq_dec string_dec (root ++ extra) root) as [Heq|]; [|reflexivity].
  exfalso. apply Hne.
  apply (f_equal (@List.length string)) in Heq.
  rewrite length_app in Heq.
  destruct extra; [reflexivity | simpl in Heq; lia].
Qed.

Lemma ReadImage_each_app (l1 l2 : list Path) (fs : Node) (posts : list Post) :
  ReadImage_each (l1 ++ l2) fs posts =
  match ReadImage_each l1 fs posts with
  | inl err => inl err
  | inr posts' => ReadImage_each l2 fs posts'
  end.
Proof.
  revert posts. induction l1 as [|p l1 IH]; intros posts; simpl; [reflexivity|].
  destruct (ReadImage p fs); [reflexivity | apply IH].
Qed.

(** Below the root, the walk reads the node itself when it is a directory,
    then the directories below it. *)
Lemma walk_below (root : Path) (fs : Node) (n : Node) :
  forall (extra : Path) (name : string) (posts : list Post),
    extra <> [] ->
    outcome (walk (root ++ extra) name n (DiscoverPosts_visit root fs) posts) =
    ReadImage_each
      (match n with DirNode _ _ => [root ++ extra] | FileNode _ _ => [] end
       ++ directoriesBelow (root ++ extra) n) fs posts.
Proof.
  induction n as [t data | t entries IH] using Node_nested_ind;
    intros extra name posts Hne.
  - simpl. unfold DiscoverPosts_visit.
    rewrite Path_eqb_below by assumption. reflexivity.
  - cbn [walk directoriesBelow app ReadImage_each].
    unfold DiscoverPosts_visit at 1.
    rewrite Path_eqb_below by assumption. cbn [infoOf IsDir].
    destruct (ReadImage (root ++ extra) fs) as [err | post]; [reflexivity|].
    generalize (posts ++ [post]). clear posts post.
    induction entries as [| [nm child] es IHes]; intros posts.
    + reflexivity.
    + inversion IH as [| ? ? Hchild Hrest]; subst. simpl in Hchild.
      simpl. rewrite ReadImage_each_app.
      assert (Hstep := Hchild (extra ++ [nm]) nm posts).
      unfold Join. rewrite !app_assoc in Hstep.
      rewrite <- Hstep by (destruct extra; discriminate).
      destruct (walk ((root ++ extra) ++ [nm]) nm child
                  (DiscoverPosts_visit root fs) posts) as [[err|] posts'];
        simpl; [reflexivity|].
      apply IHes. assumption.
Qed.

(** At the root, the walk reads the directories below it and not the root
    itself. *)
Lemma walk_root (root : Path) (fs : Node) (n : Node) (name : string)
    (posts : list Post) :
  outcome (walk root name n (DiscoverPosts_visit root fs) posts) =
  ReadImage_each (directoriesBelow root n) fs posts.
Proof.
  destruct n as [t data | t entries].
  - simpl. unfold DiscoverPosts_visit. rewrite Path_eqb_refl. reflexivity.
  - cbn [walk directoriesBelow].
    unfold DiscoverPosts_visit at 1. rewrite Path_eqb_refl.
    revert posts.
    induction entries as [| [nm child] es IHes]; intros posts; [reflexivity|].
    simpl. rewrite ReadImage_each_app.
    assert (Hstep := @walk_below root fs child [nm] nm posts).
    unfold Join. rewrite <- Hstep by discriminate.
    destruct (walk (root ++ [nm]) nm child (DiscoverPosts_visit root fs) posts)
      as [[err|] posts']; simpl; [reflexivity|].
    apply IHes.
Qed.

(** C1 (as the code has it): [DiscoverPosts] reads as a post every
    directory below the images root, at any depth, the root excepted, in
    the order of the walk; it fails with the first error met, and with the
    error of [Lstat] when the root does not exist. *)
Theorem DiscoverPosts_reads_every_directory (e : Config) (fs : Node) :
  DiscoverPosts e fs =
  match lookup (ImagesOrDefault e) fs with
  | None => inl (PathError "lstat" (ImagesOrDefault e))
  | Some n => ReadImage_each (directoriesBelow (ImagesOrDefault e) n) fs []
  end.
Proof.
  unfold DiscoverPosts, Walk.
  destruct (lookup (ImagesOrDefault e) fs) as [n|].
  - rewrite <- (walk_root (ImagesOrDefault e) fs n (Base (ImagesOrDefault e)) []).
    destruct (walk _ _ n _ _) as [[err|] posts]; reflexivity.
  - reflexivity.
Qed.

End Discovery.

(** C1 (as the specification has it) fails: in [Examples.nested] the images
    root has the single child directory [images/a], yet two posts are
    discovered, the second read from the nested directory [images/a/b]. *)
Lemma DiscoverPosts_nested_directory_is_a_post :
  exists postA postB,
    DiscoverPosts Examples.blog Examples.nested = inr [postA; postB] /\
    Post_Original postB = ["images"; "a"; "b"; "b.jpg"] /\
    option_map (childDirectories ["images"]) (lookup ["images"] Examples.nested)
      = Some [["images"; "a"]].
Proof.
  eexists. eexists. split; [vm_compute; reflexivity|].
  split; reflexivity.
Qed.

(** ** The output path *)

Section OutputPath.
Context {IM : ImageModel} {H : Host}.

Lemma MakeDir_ops (path : Path) (st : State) :
  ops (snd (MakeDir path st)) = ops st ++ [EvMakeDir path].
Proof.
  unfold MakeDir. simpl. destruct (hostMakeDir path (fs st)); reflexivity.
Qed.

(** C2 (as the code has it): [CreateOutputPath] looks at the output path
    with [os.Stat] only.  When nothing is there it calls [MakeDir] on the
    path and returns its error through [exception.New]; when something is
    there, be it a directory or a regular file, it returns nil and leaves
    the file system as it is. *)
Theorem CreateOutputPath_stat_only (e : Config) (st : State) :
  CreateOutputPath e st =
  match lookup (OutputOrDefault e) (fs st) with
  | Some _ => (None, st)
  | None =>
      (exception_New (fst (MakeDir (OutputOrDefault e) st)),
       snd (MakeDir (OutputOrDefault e) st))
  end.
Proof.
  unfold CreateOutputPath, os_Stat.
  destruct (lookup (OutputOrDefault e) (fs st)); [reflexivity|].
  destruct (MakeDir (OutputOrDefault e) st); reflexivity.
Qed.

End OutputPath.

(** With the helpers of [TreeHost], a successful [MakeDir] leaves a
    directory at the path. *)
Lemma entry_setEntry (name : string) (child : Node) (es : list (string * Node)) :
  entry name (TreeHost.setEntry name child es) = Some child.
Proof.
  induction es as [| [n c] es IH]; simpl.
  - rewrite String.eqb_refl. reflexivity.
  - destruct (String.eqb n name) eqn:E; simpl.
    + rewrite String.eqb_refl. reflexivity.
    + rewrite E. exact IH.
Qed.

Lemma mkdirAll_directory (p : Path) :
  forall n n', TreeHost.mkdirAll p n = Some n' ->
    exists t es, lookup p n' = Some (DirNode t es).
Proof.
  induction p as [| name rest IH]; intros n n' Hmk.
  - destruct n as [|t es]; simpl in Hmk; [discriminate|].
    injection Hmk as <-. exists t, es. reflexivity.
  - destruct n as [|t es]; simpl in Hmk; [discriminate|].
    destruct (TreeHost.mkdirAll rest _) as [c'|] eqn:Hrest; [|discriminate].
    injection Hmk as <-. simpl. rewrite entry_setEntry.
    eapply IH. exact Hrest.
Qed.

Lemma CreateOutputPath_creates (e : Config) (st st' : State) :
  lookup (OutputOrDefault e) (fs st) = None ->
  CreateOutputPath e st = (None, st') ->
  exists t es, lookup (OutputOrDefault e) (fs st') = Some (DirNode t es).
Proof.
  intros Habsent Hrun. unfold CreateOutputPath, os_Stat in Hrun.
  rewrite Habsent in Hrun.
  unfold MakeDir in Hrun. simpl in Hrun. unfold TreeHost.makeDir in Hrun.
  destruct (TreeHost.mkdirAll (OutputOrDefault e) (fs st)) as [fs'|] eqn:Hmk;
    simpl in Hrun; [|discriminate].
  injection Hrun as <-. simpl. eapply mkdirAll_directory. exact Hmk.
Qed.

(** C2 (as the specification has it) fails: in [Examples.occupied] the
    output path is a regular file, and [CreateOutputPath] returns nil
    without touching it. *)
Lemma CreateOutputPath_accepts_a_file :
  lookup (OutputOrDefault Examples.blog) Examples.occupied
    = Some (FileNode 5%Z "not a directory") /\
  CreateOutputPath Examples.blog (mkState Examples.occupied [])
    = (None, mkState Examples.occupied []).
Proof. split; reflexivity. Qed.

(** ** The pipeline *)

Section Pipeline.
Context {IM : ImageModel} {H : Host}.

(** C9: [Generate] runs discovery, the creation of the output path, the
    rendering and the copy of the static assets in this order; the first
    step that fails ends the run with its error, and a failed discovery
    returns its error with no step run after it: the file system and the
    operations performed are as before. *)
Theorem Generate_fail_fast (e : Config) (st : State) :
  Generate e st =
  match DiscoverPosts e (fs st) with
  | inl err => (Some err, st)
  | inr posts =>
      andThen (CreateOutputPath e)
        (andThen (Render e posts) (CopyStatics e)) st
  end.
Proof.
  unfold Generate, andThen.
  destruct (DiscoverPosts e (fs st)) as [err | posts]; [reflexivity|].
  destruct (CreateOutputPath e st) as [[err|] st1]; [reflexivity|].
  destruct (Render e posts st1) as [[err|] st2]; [reflexivity|].
  destruct (CopyStatics e st2) as [[err|] st3]; reflexivity.
Qed.

End Pipeline.

(** ** Template compilation *)

Section Compilation.
Context {IM : ImageModel} {H : Host}.

Lemma CompileTemplate_partials_each (partials : list string) :
  forall (tmp : Template) (contents : string),
    match CompileTemplate_partials tmp partials with
    | inl err => inl err
    | inr tmp' =>
        match Parse tmp' contents with
        | inl err => inl (exception_wrap err)
        | inr final => inr final
        end
    end = Parse_each tmp (partials ++ [contents]).
Proof.
  induction partials as [| partial rest IH]; intros tmp contents; simpl.
  - destruct (Parse tmp contents); reflexivity.
  - destruct (Parse tmp partial) as [err | tmp']; [reflexivity | apply IH].
Qed.

(** C3 (as the code has it): [CompileTemplate] reads the main template,
    then parses the partials in the order given and the main template last,
    all into the one template made by [template.New]; it fails with the
    error of the read, or with the first error [Parse] returns, and with no
    other: whether a source may define a block again is left to [Parse]. *)
Theorem CompileTemplate_parses_in_order (templatePath : Path)
    (partials : list string) (fs : Node) :
  CompileTemplate templatePath partials fs =
  match ioutil_ReadFile templatePath fs with
  | inl err => inl (exception_wrap err)
  | inr contents => Parse_each template_New (partials ++ [contents])
  end.
Proof.
  unfold CompileTemplate.
  destruct (ioutil_ReadFile templatePath fs) as [err | contents]; [reflexivity|].
  apply CompileTemplate_partials_each.
Qed.

End Compilation.

(** C3 (as the specification has it) fails: with html/template, a main
    template that defines the block [footer] again, after a partial did,
    compiles, and its definition takes the place of the partial's. *)
Lemma CompileTemplate_accepts_redefinition :
  (exists tmp,
     TreeHost.parse [] Examples.footerPartial = inr tmp /\
     TreeHost.body "footer" tmp = Some "old footer") /\
  exists final,
    CompileTemplate ["layout"; "post.html"] [Examples.footerPartial] Examples.layout
      = inr final /\
    TreeHost.body "footer" final = Some "new footer".
Proof.
  split; eexists; split; vm_compute; reflexivity.
Qed.

(** ** Reading a post folder *)

Section Reading.
Context {IM : ImageModel} {H : Host}.
Variables (path : Path) (fs : Node).

Lemma ReadImage_listing (stat : FileInfo) (files : list FileInfo) :
  os_Stat path fs = inr stat ->
  IsDir stat = true ->
  GetFileInfos path fs = inr files ->
  ReadImage path fs = ReadImage_files path fs files.
Proof.
  intros Hstat Hdir Hlist. unfold ReadImage.
  rewrite Hstat, Hdir, Hlist. reflexivity.
Qed.

Lemma ReadImage_files_finish (files : list FileInfo) :
  files <> [] ->
  ReadImage_files path fs files =
  ReadImage_finish path (ReadImage_loop path fs files (Post_zero, Time_zero)).
Proof.
  intros Hne. unfold ReadImage_files, ReadImage_finish.
  destruct files as [| fi rest]; [congruence|].
  replace (Z.of_nat (List.length (fi :: rest)) =? 0)%Z with false
    by (symmetry; apply Z.eqb_neq; simpl; lia).
  destruct (ReadImage_loop path fs (fi :: rest) (Post_zero, Time_zero))
    as [err | [post modTime]]; reflexivity.
Qed.

Lemma ReadImage_loop_app (l1 l2 : list FileInfo) (acc : Post * Time) :
  ReadImage_loop path fs (l1 ++ l2) acc =
  ReadImage_from path fs (ReadImage_loop path fs l1 acc) l2.
Proof.
  revert acc. induction l1 as [| fi l1 IH]; intros acc; simpl; [reflexivity|].
  destruct (ReadImage_file path fs acc fi) as [err | acc']; [reflexivity | apply IH].
Qed.

(** *** The three branches of a round *)

Lemma round_meta (acc : Post * Time) (fi : FileInfo) :
  isMeta fi = true ->
  ReadImage_file path fs acc fi =
  match ReadYAML (Join path (Name fi)) (Post_Meta (fst acc)) fs with
  | inl err => inl err
  | inr meta =>
      inr (mkPost (Post_Original (fst acc)) (Post_File (fst acc))
                  (Post_Image (fst acc)) meta, snd acc)
  end.
Proof.
  unfold isMeta, ReadImage_file. intros ->. destruct acc; reflexivity.
Qed.

Lemma round_image (acc : Post * Time) (fi : FileInfo) :
  isImage fi = true ->
  Image_IsZero (Post_Image (fst acc)) = true ->
  ReadImage_file path fs acc fi =
  match decodeImage (Join path (Name fi)) (Post_Image (fst acc)) fs with
  | inl err => inl err
  | inr image =>
      inr (mkPost (Join path (Name fi)) (Name fi) image (Post_Meta (fst acc)),
           ModTime fi)
  end.
Proof.
  unfold isImage, isMeta, ReadImage_file. intros Himg Hzero.
  apply andb_true_iff in Himg as [Hmeta Hext].
  apply negb_true_iff in Hmeta.
  destruct acc as [post modTime]. simpl in Hzero.
  rewrite Hmeta, Hext, Hzero. reflexivity.
Qed.

Lemma round_skip (acc : Post * Time) (fi : FileInfo) :
  isMeta fi = false ->
  HasExtension (Name fi) ImageExtensions && Image_IsZero (Post_Image (fst acc)) = false ->
  ReadImage_file path fs acc fi = inr acc.
Proof.
  unfold isMeta, ReadImage_file. intros Hmeta Hguard.
  destruct acc as [post modTime]. simpl in Hguard.
  rewrite Hmeta, Hguard. reflexivity.
Qed.

Lemma not_image (fi : FileInfo) :
  isImage fi = false ->
  isMeta fi = true \/
  (isMeta fi = false /\ HasExtension (Name fi) ImageExtensions = false).
Proof.
  unfold isImage. destruct (isMeta fi); [left; reflexivity|].
  simpl. intros ->. right. split; reflexivity.
Qed.

(** *** Entries that are not images leave the image fields alone *)

Lemma round_keeps_image (acc acc' : Post * Time) (fi : FileInfo) :
  isImage fi = false ->
  ReadImage_file path fs acc fi = inr acc' ->
  Post_Original (fst acc') = Post_Original (fst acc) /\
  Post_File (fst acc') = Post_File (fst acc) /\
  Post_Image (fst acc') = Post_Image (fst acc) /\
  snd acc' = snd acc.
Proof.
  intros Hno Hrun. destruct (not_image fi Hno) as [Hmeta | [Hmeta Hext]].
  - rewrite round_meta in Hrun by assumption.
    destruct (ReadYAML _ _ _); [discriminate|].
    injection Hrun as <-. simpl. repeat split.
  - rewrite round_skip in Hrun by (try assumption; rewrite Hext; reflexivity).
    injection Hrun as <-. repeat split.
Qed.

Lemma loop_keeps_image (files : list FileInfo) :
  Forall (fun fi => isImage fi = false) files ->
  forall acc acc',
    ReadImage_loop path fs files acc = inr acc' ->
    Post_Original (fst acc') = Post_Original (fst acc) /\
    Post_File (fst acc') = Post_File (fst acc) /\
    Post_Image (fst acc') = Post_Image (fst acc) /\
    snd acc' = snd acc.
Proof.
  induction 1 as [| fi rest Hfi _ IH]; intros acc acc' Hrun; simpl in Hrun.
  - injection Hrun as <-. repeat split.
  - destruct (ReadImage_file path fs acc fi) as [err | acc1] eqn:Hround;
      [discriminate|].
    destruct (round_keeps_image acc fi Hfi Hround) as (H1 & H2 & H3 & H4).
    destruct (IH _ _ Hrun) as (K1 & K2 & K3 & K4).
    repeat split; congruence.
Qed.

(** *** Entries that are not the metadata file leave the metadata alone *)

Lemma round_keeps_meta (acc acc' : Post * Time) (fi : FileInfo) :
  isMeta fi = false ->
  ReadImage_file path fs acc fi = inr acc' ->
  Post_Meta (fst acc') = Post_Meta (fst acc).
Proof.
  unfold isMeta, ReadImage_file. intros Hmeta Hrun.
  destruct acc as [post modTime]. rewrite Hmeta in Hrun.
  destruct (HasExtension _ _ && Image_IsZero _).
  - destruct (decodeImage _ _ _); [discriminate|].
    injection Hrun as <-. reflexivity.
  - injection Hrun as <-. reflexivity.
Qed.

Lemma loop_keeps_meta (files : list FileInfo) :
  Forall (fun fi => isMeta fi = false) files ->
  forall acc acc',
    ReadImage_loop path fs files acc = inr acc' ->
    Post_Meta (fst acc') = Post_Meta (fst acc).
Proof.
  induction 1 as [| fi rest Hfi _ IH]; intros acc acc' Hrun; simpl in Hrun.
  - injection Hrun as <-. reflexivity.
  - destruct (ReadImage_file path fs acc fi) as [err | acc1] eqn:Hround;
      [discriminate|].
    rewrite (IH _ _ Hrun). eapply round_keeps_meta; eassumption.
Qed.

(** *** Entries that are neither are skipped *)

Lemma loop_skips (files : list FileInfo) (acc : Post * Time) :
  Forall (fun fi => isMeta fi = false) files ->
  Forall (fun fi => isImage fi = false) files ->
  ReadImage_loop path fs files acc = inr acc.
Proof.
  intros Hmeta. induction Hmeta as [| fi rest Hfi _ IH]; intros Himg; simpl.
  - reflexivity.
  - inversion Himg as [| ? ? Hno Hrest]; subst.
    destruct (not_image fi Hno) as [Hyes | [_ Hext]]; [congruence|].
    rewrite round_skip by (try assumption; rewrite Hext; reflexivity).
    apply IH. assumption.
Qed.

(** *** A listing without repeated names has one metadata file at most *)

Lemma isMeta_same_name (fi fj : FileInfo) :
  isMeta fi = true -> isMeta fj = true -> Name fi = Name fj.
Proof.
  unfold isMeta. intros Hi Hj.
  apply String.eqb_eq in Hi. apply String.eqb_eq in Hj. congruence.
Qed.

Lemma single_meta (files : list FileInfo) (m : FileInfo) :
  NoDup (map Name files) ->
  In m files ->
  isMeta m = true ->
  exists before after,
    files = before ++ m :: after /\
    Forall (fun fi => isMeta fi = false) before /\
    Forall (fun fi => isMeta fi = false) after.
Proof.
  intros Hnodup Hin Hmeta.
  destruct (in_split _ _ Hin) as (before & after & ->).
  exists before, after. split; [reflexivity|].
  rewrite map_app in Hnodup. simpl in Hnodup.
  apply NoDup_remove_2 in Hnodup.
  split; apply Forall_forall; intros fi Hfi;
    destruct (isMeta fi) eqn:Hfimeta; try reflexivity;
    exfalso; apply Hnodup; rewrite <- (isMeta_same_name fi m Hfimeta Hmeta);
    rewrite <- map_app; apply in_map; apply in_or_app; auto.
Qed.

(** *** Folders without an image *)

Lemma finish_without_image (acc : Post * Time) :
  Post_Original (fst acc) = [] ->
  ReadImage_finish path (inr acc) = inl (NoImageFoundError path).
Proof.
  destruct acc as [post modTime]. simpl. intros Horiginal.
  destruct (Time_IsZero (Posted (Post_Meta post))); simpl;
    rewrite Horiginal; reflexivity.
Qed.

Lemma Forall_app_parts (A : Type) (P : A -> Prop) (l1 : list A) (x : A) (l2 : list A) :
  Forall P (l1 ++ x :: l2) -> Forall P l1 /\ P x /\ Forall P l2.
Proof.
  intros Hall. apply Forall_app in Hall as [H1 H2].
  inversion H2; subst. auto.
Qed.

Lemma files_without_image_no_meta (files : list FileInfo) :
  files <> [] ->
  Forall (fun fi => isImage fi = false) files ->
  Forall (fun fi => isMeta fi = false) files ->
  ReadImage_files path fs files = inl (NoImageFoundError path).
Proof.
  intros Hne Himg Hmeta.
  rewrite ReadImage_files_finish by assumption.
  rewrite loop_skips by assumption.
  apply finish_without_image. reflexivity.
Qed.

Lemma files_without_image_meta (files : list FileInfo) (m : FileInfo) :
  NoDup (map Name files) ->
  Forall (fun fi => isImage fi = false) files ->
  In m files ->
  isMeta m = true ->
  ReadImage_files path fs files =
  match ReadYAML (Join path (Name m)) Meta_zero fs with
  | inl err => inl err
  | inr _ => inl (NoImageFoundError path)
  end.
Proof.
  intros Hnodup Himg Hin Hmeta.
  destruct (single_meta files m Hnodup Hin Hmeta)
    as (before & after & -> & Hbefore & Hafter).
  apply Forall_app_parts in Himg as (Himg1 & _ & Himg2).
  rewrite ReadImage_files_finish by (destruct before; discriminate).
  rewrite ReadImage_loop_app, loop_skips by assumption.
  cbn [ReadImage_from ReadImage_loop]. rewrite round_meta by assumption.
  cbn [fst snd Post_zero Post_Meta].
  destruct (ReadYAML (Join path (Name m)) Meta_zero fs) as [err | meta];
    [reflexivity|].
  rewrite loop_skips by assumption.
  apply finish_without_image. reflexivity.
Qed.

(** C6 (as the code has it): an empty listing fails with [NoFilesError].
    A listing that is not empty and holds no file with a recognized image
    extension fails with [NoImageFoundError], unless the metadata file is
    there and cannot be read, in which case [ReadImage] fails with the
    error of that read.  No Post is returned in any of these cases. *)
Theorem ReadImage_without_image (stat : FileInfo) (files : list FileInfo) :
  os_Stat path fs = inr stat ->
  IsDir stat = true ->
  GetFileInfos path fs = inr files ->
  NoDup (map Name files) ->
  Forall (fun fi => isImage fi = false) files ->
  (files = [] -> ReadImage path fs = inl (NoFilesError path)) /\
  (files <> [] -> Forall (fun fi => isMeta fi = false) files ->
   ReadImage path fs = inl (NoImageFoundError path)) /\
  (forall m, In m files -> isMeta m = true ->
   ReadImage path fs =
   match ReadYAML (Join path (Name m)) Meta_zero fs with
   | inl err => inl err
   | inr _ => inl (NoImageFoundError path)
   end) /\
  (forall post, ReadImage path fs <> inr post).
Proof.
  intros Hstat Hdir Hlist Hnodup Himg.
  rewrite (ReadImage_listing Hstat Hdir Hlist).
  assert (Hempty : files = [] -> ReadImage_files path fs files = inl (NoFilesError path))
    by (intros ->; reflexivity).
  assert (Hmeta : forall m, In m files -> isMeta m = true ->
            ReadImage_files path fs files =
            match ReadYAML (Join path (Name m)) Meta_zero fs with
            | inl err => inl err
            | inr _ => inl (NoImageFoundError path)
            end)
    by (intros m Hin Hm; apply files_without_image_meta; assumption).
  repeat split; try assumption.
  - intros Hne Hnone. apply files_without_image_no_meta; assumption.
  - intros post Hpost.
    destruct files as [| fi rest] eqn:Hfiles;
      [rewrite Hempty in Hpost by reflexivity; discriminate|].
    rewrite <- Hfiles in *.
    destruct (existsb isMeta files) eqn:Hsome.
    + apply existsb_exists in Hsome as (m & Hin & Hm).
      rewrite (Hmeta m Hin Hm) in Hpost.
      destruct (ReadYAML _ _ _); discriminate.
    + rewrite files_without_image_no_meta in Hpost;
        [discriminate | rewrite Hfiles; discriminate | assumption |].
      apply Forall_forall. intros fj Hfj.
      destruct (isMeta fj) eqn:Hj; [|reflexivity].
      assert (existsb isMeta files = true)
        by (apply existsb_exists; exists fj; auto).
      congruence.
Qed.

(** *** Where the fields of the post come from *)

Lemma round_image_source (files : list FileInfo) (acc acc' : Post * Time)
    (fi : FileInfo) :
  In fi files ->
  Post_Original (fst acc) = [] \/ (exists img, populatedFrom path files acc img) ->
  ReadImage_file path fs acc fi = inr acc' ->
  Post_Original (fst acc') = [] \/ (exists img, populatedFrom path files acc' img).
Proof.
  intros Hin Hinv Hrun.
  destruct (isImage fi) eqn:Himg.
  - destruct (Image_IsZero (Post_Image (fst acc))) eqn:Hzero.
    + rewrite round_image in Hrun by assumption.
      destruct (decodeImage _ _ _) as [err | image]; [discriminate|].
      injection Hrun as <-. right. exists fi. unfold populatedFrom. simpl. auto.
    + unfold isImage in Himg. apply andb_true_iff in Himg as [Hmeta _].
      apply negb_true_iff in Hmeta.
      rewrite round_skip in Hrun
        by (try assumption; rewrite Hzero; apply andb_false_r).
      injection Hrun as <-. assumption.
  - destruct (round_keeps_image acc fi Himg Hrun) as (H1 & H2 & H3 & H4).
    destruct Hinv as [Hnone | (img & Hi & Him & Hf & Ho & Ht)].
    + left. congruence.
    + right. exists img. unfold populatedFrom. repeat split; congruence.
Qed.

Lemma loop_image_source (files l : list FileInfo) :
  incl l files ->
  forall acc acc',
    Post_Original (fst acc) = [] \/ (exists img, populatedFrom path files acc img) ->
    ReadImage_loop path fs l acc = inr acc' ->
    Post_Original (fst acc') = [] \/ (exists img, populatedFrom path files acc' img).
Proof.
  induction l as [| fi rest IH]; intros Hincl acc acc' Hinv Hrun; simpl in Hrun.
  - injection Hrun as <-. assumption.
  - destruct (ReadImage_file path fs acc fi) as [err | acc1] eqn:Hround;
      [discriminate|].
    apply (IH (fun x Hx => Hincl x (or_intror Hx)) acc1 acc'); [|assumption].
    eapply round_image_source; [apply Hincl; left; reflexivity | | eassumption].
    assumption.
Qed.

Lemma loop_single_meta (before after : list FileInfo) (m : FileInfo)
    (acc acc' : Post * Time) :
  isMeta m = true ->
  Forall (fun fi => isMeta fi = false) before ->
  Forall (fun fi => isMeta fi = false) after ->
  ReadImage_loop path fs (before ++ m :: after) acc = inr acc' ->
  ReadYAML (Join path (Name m)) (Post_Meta (fst acc)) fs = inr (Post_Meta (fst acc')).
Proof.
  intros Hmeta Hbefore Hafter Hrun.
  rewrite ReadImage_loop_app in Hrun.
  destruct (ReadImage_loop path fs before acc) as [err | acc1] eqn:Hfirst;
    [discriminate|].
  rewrite <- (loop_keeps_meta Hbefore _ Hfirst).
  cbn [ReadImage_from ReadImage_loop] in Hrun.
  rewrite round_meta in Hrun by assumption.
  destruct (ReadYAML (Join path (Name m)) (Post_Meta (fst acc1)) fs)
    as [err | meta]; [discriminate|].
  rewrite (loop_keeps_meta Hafter _ Hrun). reflexivity.
Qed.

(** The result of [ReadImage], read back: the loop ended on [acc], an image
    was found, and [Posted] is the one of the metadata or, when that is
    zero, the modification time kept by the loop. *)
Lemma ReadImage_files_result (files : list FileInfo) (post : Post) :
  ReadImage_files path fs files = inr post ->
  exists acc,
    ReadImage_loop path fs files (Post_zero, Time_zero) = inr acc /\
    Post_Original (fst acc) <> [] /\
    Post_Original post = Post_Original (fst acc) /\
    Post_File post = Post_File (fst acc) /\
    Post_Image post = Post_Image (fst acc) /\
    Posted (Post_Meta post) =
      (if Time_IsZero (Posted (Post_Meta (fst acc))) then snd acc
       else Posted (Post_Meta (fst acc))).
Proof.
  unfold ReadImage_files. intros Hrun.
  destruct (Z.of_nat (List.length files) =? 0)%Z; [discriminate|].
  destruct (ReadImage_loop path fs files (Post_zero, Time_zero))
    as [err | [p modTime]]; [discriminate|].
  exists (p, modTime). split; [reflexivity|]. simpl.
  destruct (Time_IsZero (Posted (Post_Meta p))); simpl in Hrun;
    (destruct (Path_eqb (Post_Original p) []) eqn:Hpath; [discriminate|]);
    injection Hrun as <-; simpl;
    (split; [intros Heq; rewrite Heq in Hpath; rewrite Path_eqb_refl in Hpath;
             discriminate | repeat split]).
Qed.

(** C4: when the metadata file of the folder carries a posted timestamp
    that is not zero, the Post of [ReadImage] has it as [Meta.Posted];
    when the folder has no metadata file, or one whose posted timestamp is
    zero, [Meta.Posted] is the modification time of the image file the Post
    was read from. *)
Theorem ReadImage_Posted (stat : FileInfo) (files : list FileInfo) (post : Post) :
  os_Stat path fs = inr stat ->
  IsDir stat = true ->
  GetFileInfos path fs = inr files ->
  NoDup (map Name files) ->
  ReadImage path fs = inr post ->
  (forall m meta,
     In m files -> isMeta m = true ->
     ReadYAML (Join path (Name m)) Meta_zero fs = inr meta ->
     Time_IsZero (Posted meta) = false ->
     Posted (Post_Meta post) = Posted meta) /\
  (Forall (fun fi => isMeta fi = false) files \/
   (exists m meta,
      In m files /\ isMeta m = true /\
      ReadYAML (Join path (Name m)) Meta_zero fs = inr meta /\
      Time_IsZero (Posted meta) = true) ->
   exists img,
     In img files /\ isImage img = true /\
     Post_File post = Name img /\
     Post_Original post = Join path (Name img) /\
     Posted (Post_Meta post) = ModTime img).
Proof.
  intros Hstat Hdir Hlist Hnodup Hrun.
  rewrite (ReadImage_listing Hstat Hdir Hlist) in Hrun.
  destruct (ReadImage_files_result files Hrun)
    as (acc & Hloop & Hfound & Horiginal & Hfile & _ & Hposted).
  assert (Hone : forall m meta,
            In m files -> isMeta m = true ->
            ReadYAML (Join path (Name m)) Meta_zero fs = inr meta ->
            Post_Meta (fst acc) = meta).
  { intros m meta Hin Hmeta Hyaml.
    destruct (single_meta files m Hnodup Hin Hmeta)
      as (before & after & Hsplit & Hbefore & Hafter).
    rewrite Hsplit in Hloop.
    pose proof (loop_single_meta _ _ Hmeta Hbefore Hafter Hloop) as Hread.
    simpl in Hread. congruence. }
  split.
  - intros m meta Hin Hmeta Hyaml Hnonzero.
    rewrite Hposted, (Hone m meta Hin Hmeta Hyaml), Hnonzero. reflexivity.
  - intros Hzero.
    assert (Hdefault : Posted (Post_Meta post) = snd acc).
    { rewrite Hposted.
      destruct Hzero as [Hnone | (m & meta & Hin & Hmeta & Hyaml & Hz)].
      - rewrite (loop_keeps_meta Hnone _ Hloop). reflexivity.
      - rewrite (Hone m meta Hin Hmeta Hyaml), Hz. reflexivity. }
    destruct (@loop_image_source files files (incl_refl files)
                (Post_zero, Time_zero) acc (or_introl eq_refl) Hloop)
      as [Hnone | (img & Hin & Himg & Hf & Ho & Ht)]; [contradiction|].
    exists img. repeat split; congruence.
Qed.

(** *** After the first image *)

Lemma loop_after_image (rest : list FileInfo) :
  forall acc,
    Image_IsZero (Post_Image (fst acc)) = false ->
    ReadImage_loop path fs rest acc =
    ReadImage_loop path fs (filter isMeta rest) acc.
Proof.
  induction rest as [| fi rest IH]; intros acc Hset; [reflexivity|].
  cbn [filter]. destruct (isMeta fi) eqn:Hmeta; cbn [ReadImage_loop].
  - destruct (ReadImage_file path fs acc fi) as [err | acc1] eqn:Hround;
      [reflexivity|].
    apply IH.
    assert (Hno : isImage fi = false) by (unfold isImage; rewrite Hmeta; reflexivity).
    destruct (round_keeps_image acc fi Hno Hround) as (_ & _ & Himage & _).
    congruence.
  - rewrite round_skip by (try assumption; rewrite Hset; apply andb_false_r).
    apply IH. assumption.
Qed.

Lemma meta_entries_not_images (files : list FileInfo) :
  Forall (fun fi => isImage fi = false) (filter isMeta files).
Proof.
  apply Forall_forall. intros fi Hin. apply filter_In in Hin as [_ Hmeta].
  unfold isImage. rewrite Hmeta. reflexivity.
Qed.

Section FirstImage.
Hypothesis zero_is_zero : Image_IsZero Image_zero = true.
Hypothesis decoded_is_set :
  forall p previous fs' image,
    decodeImage p previous fs' = inr image -> Image_IsZero image = false.

(** The loop up to and including the first image of the listing. *)
Lemma loop_first_image (before : list FileInfo) (img : FileInfo) (acc : Post * Time) :
  Forall (fun fi => isImage fi = false) before ->
  isImage img = true ->
  ReadImage_loop path fs (before ++ [img]) (Post_zero, Time_zero) = inr acc ->
  decodeImage (Join path (Name img)) Image_zero fs = inr (Post_Image (fst acc)) /\
  Post_Original (fst acc) = Join path (Name img) /\
  Post_File (fst acc) = Name img /\
  snd acc = ModTime img /\
  Image_IsZero (Post_Image (fst acc)) = false.
Proof.
  intros Hbefore Himg Hrun. rewrite ReadImage_loop_app in Hrun.
  destruct (ReadImage_loop path fs before (Post_zero, Time_zero))
    as [err | acc1] eqn:Hfirst; [discriminate|].
  destruct (loop_keeps_image Hbefore _ Hfirst) as (_ & _ & Himage & _).
  simpl in Himage. cbn [ReadImage_from ReadImage_loop] in Hrun.
  rewrite round_image in Hrun by (try assumption; rewrite Himage; assumption).
  rewrite Himage in Hrun.
  destruct (decodeImage (Join path (Name img)) Image_zero fs)
    as [err | image] eqn:Hdecode; [discriminate|].
  injection Hrun as <-. simpl.
  repeat split. eapply decoded_is_set. exact Hdecode.
Qed.

Lemma loop_ignores_later_images (before after : list FileInfo) (img : FileInfo) :
  Forall (fun fi => isImage fi = false) before ->
  isImage img = true ->
  ReadImage_loop path fs (before ++ img :: after) (Post_zero, Time_zero) =
  ReadImage_loop path fs (before ++ img :: filter isMeta after) (Post_zero, Time_zero).
Proof.
  intros Hbefore Himg.
  change (before ++ img :: after) with (before ++ [img] ++ after).
  change (before ++ img :: filter isMeta after)
    with (before ++ [img] ++ filter isMeta after).
  rewrite !app_assoc, !(ReadImage_loop_app (before ++ [img])).
  destruct (ReadImage_loop path fs (before ++ [img]) (Post_zero, Time_zero))
    as [err | acc] eqn:Hfirst; [reflexivity|].
  cbn [ReadImage_from]. apply loop_after_image.
  apply (loop_first_image _ Hbefore Himg Hfirst).
Qed.

(** C7: the Post is read from the first file of the listing with a
    recognized image extension, and the files after it that are not the
    metadata file, further images among them, are ignored: [ReadImage] gives
    what it gives on the listing without them, be it a Post or an error. *)
Theorem ReadImage_first_image (before after : list FileInfo) (img : FileInfo) :
  Forall (fun fi => isImage fi = false) before ->
  isImage img = true ->
  ReadImage_files path fs (before ++ img :: after) =
  ReadImage_files path fs (before ++ img :: filter isMeta after) /\
  (forall post,
     ReadImage_files path fs (before ++ img :: after) = inr post ->
     Post_Original post = Join path (Name img) /\
     Post_File post = Name img /\
     decodeImage (Join path (Name img)) Image_zero fs = inr (Post_Image post)).
Proof.
  intros Hbefore Himg. split.
  - rewrite !ReadImage_files_finish by (destruct before; discriminate).
    rewrite loop_ignores_later_images by assumption. reflexivity.
  - intros post Hrun.
    destruct (ReadImage_files_result _ Hrun)
      as (acc & Hloop & _ & Horiginal & Hfile & Himage & _).
    rewrite loop_ignores_later_images in Hloop by assumption.
    change (before ++ img :: filter isMeta after)
      with (before ++ [img] ++ filter isMeta after) in Hloop.
    rewrite app_assoc, ReadImage_loop_app in Hloop.
    destruct (ReadImage_loop path fs (before ++ [img]) (Post_zero, Time_zero))
      as [err | acc1] eqn:Hfirst; [discriminate|].
    cbn [ReadImage_from] in Hloop.
    destruct (loop_first_image _ Hbefore Himg Hfirst)
      as (Hdecode & Ho & Hf & _ & _).
    destruct (loop_keeps_image (meta_entries_not_images after) _ Hloop)
      as (K1 & K2 & K3 & _).
    repeat split; congruence.
Qed.

End FirstImage.

(** *** The place of the metadata file *)

Lemma agree_refl (A : Type) (r : result A) : agree r r.
Proof. destruct r; simpl; auto. Qed.

Lemma agree_trans (A : Type) (r1 r2 r3 : result A) :
  agree r1 r2 -> agree r2 r3 -> agree r1 r3.
Proof.
  destruct r1, r2, r3; simpl; intros; try contradiction; auto; congruence.
Qed.

Lemma agree_same_value (A : Type) (r1 r2 : result A) (a : A) :
  agree r1 r2 -> (r1 = inr a <-> r2 = inr a).
Proof.
  destruct r1, r2; simpl; intros Hagree; try contradiction;
    split; intros Heq; try discriminate; congruence.
Qed.

Lemma from_agree (r1 r2 : result (Post * Time)) (files : list FileInfo) :
  agree r1 r2 ->
  agree (ReadImage_from path fs r1 files) (ReadImage_from path fs r2 files).
Proof.
  destruct r1, r2; simpl; intros Hagree; try contradiction; auto.
  subst. apply agree_refl.
Qed.

Lemma finish_agree (r1 r2 : result (Post * Time)) :
  agree r1 r2 -> agree (ReadImage_finish path r1) (ReadImage_finish path r2).
Proof.
  destruct r1, r2; simpl; intros Hagree; try contradiction; auto.
  subst. apply agree_refl.
Qed.

(** The metadata file and a neighbour that is not one change places. *)
Lemma swap_rounds (acc : Post * Time) (m x : FileInfo) :
  isMeta m = true ->
  isMeta x = false ->
  agree (ReadImage_loop path fs [m; x] acc) (ReadImage_loop path fs [x; m] acc).
Proof.
  unfold isMeta. intros Hm Hx. destruct acc as [post modTime].
  cbn [ReadImage_loop]. unfold ReadImage_file. rewrite Hm, Hx.
  destruct (ReadYAML (Join path (Name m)) (Post_Meta post) fs) as [err | meta] eqn:Hyaml;
    cbn [Post_Image Post_Meta Post_Original Post_File];
    destruct (HasExtension (Name x) ImageExtensions && Image_IsZero (Post_Image post));
    try (destruct (decodeImage (Join path (Name x)) (Post_Image post) fs));
    cbn [Post_Image Post_Meta Post_Original Post_File];
    rewrite ?Hm, ?Hyaml; simpl; auto.
Qed.

Lemma move_meta (m : FileInfo) (between after : list FileInfo) :
  isMeta m = true ->
  Forall (fun fi => isMeta fi = false) between ->
  forall acc,
    agree (ReadImage_loop path fs (m :: between ++ after) acc)
          (ReadImage_loop path fs (between ++ m :: after) acc).
Proof.
  intros Hm Hbetween.
  induction Hbetween as [| x rest Hx _ IH]; intros acc.
  - apply agree_refl.
  - apply agree_trans with (ReadImage_loop path fs ([x; m] ++ rest ++ after) acc).
    + change (m :: (x :: rest) ++ after) with ([m; x] ++ rest ++ after).
      rewrite !ReadImage_loop_app. apply from_agree. apply swap_rounds; assumption.
    + cbn [app ReadImage_loop].
      destruct (ReadImage_file path fs acc x) as [err | acc1]; [exact I|].
      apply IH.
Qed.

(** C10: the metadata file may stand before or after any run of other
    entries of the listing, the first image among them: [ReadImage] returns
    the same Post for both listings, or a Post for neither. *)
Theorem ReadImage_meta_position (before between after : list FileInfo)
    (m : FileInfo) (post : Post) :
  isMeta m = true ->
  Forall (fun fi => isMeta fi = false) between ->
  ReadImage_files path fs (before ++ m :: between ++ after) = inr post <->
  ReadImage_files path fs (before ++ between ++ m :: after) = inr post.
Proof.
  intros Hm Hbetween. apply agree_same_value.
  rewrite !ReadImage_files_finish
    by (destruct before; [destruct between|]; discriminate).
  apply finish_agree. rewrite !ReadImage_loop_app. 
  destruct (ReadImage_loop path fs before (Post_zero, Time_zero)) as [err | acc];
    [exact I|].
  cbn [ReadImage_from]. apply move_meta; assumption.
Qed.

End Reading.

(** ** Rendering *)

Section Rendering.
Context {IM : ImageModel} {H : Host}.
Variable e : Config.

Lemma WriteTemplate_ops (tpl : Template) (outputPath : Path) (data : ViewModel)
    (st : State) :
  ops (snd (WriteTemplate tpl outputPath data st)) =
  ops st ++ [EvWriteTemplate tpl outputPath data].
Proof.
  unfold WriteTemplate. simpl.
  destruct (os_Create outputPath (fs st)); [reflexivity|].
  destruct (Execute tpl data). reflexivity.
Qed.

Lemma Copy_ops (source destination : Path) (st : State) :
  ops (snd (Copy source destination st)) = ops st ++ [EvCopy source destination].
Proof.
  unfold Copy. simpl. destruct (hostCopy source destination (fs st)); reflexivity.
Qed.

Lemma Render_pages_ops (partials : list string) (posts : list Post)
    (pages : list Path) :
  forall st st',
    Render_pages e (OutputOrDefault e) partials posts pages st = (None, st') ->
    exists pageEvents,
      Forall2 (pageEvent e posts) pages pageEvents /\
      ops st' = ops st ++ pageEvents.
Proof.
  induction pages as [| pagePath rest IH]; intros st st' Hrun; simpl in Hrun.
  - injection Hrun as <-. exists []. split; [constructor | symmetry; apply app_nil_r].
  - destruct (CompileTemplate pagePath partials (fs st)) as [err | page];
      [discriminate|].
    pose proof (WriteTemplate_ops page (Join (OutputOrDefault e) (Base pagePath))
                  (mkViewModel e posts Post_zero Post_zero Post_zero) st) as Hops.
    destruct (WriteTemplate page _ _ st) as [[err|] st1]; [discriminate|].
    destruct (IH _ _ Hrun) as (evs & Hall & Hrest). simpl in Hops.
    exists (EvWriteTemplate page (Join (OutputOrDefault e) (Base pagePath))
              (mkViewModel e posts Post_zero Post_zero Post_zero) :: evs).
    split.
    + constructor; [exists page; reflexivity | assumption].
    + rewrite Hrest, Hops, <- app_assoc. reflexivity.
Qed.

(** The view model built in the loop is the one the specification
    describes. *)
Lemma Render_postData_neighbours (posts : list Post) (i : nat) :
  (i < List.length posts)%nat ->
  Render_postData e posts (Z.of_nat i) (nth i posts Post_zero) = postData e posts i.
Proof.
  intros Hi. unfold Render_postData, postData, previousOf, nextOf, index_posts.
  f_equal.
  - destruct i as [| j].
    + reflexivity.
    + replace (Z.of_nat (S j) >? 0)%Z with true by (symmetry; apply Z.gtb_lt; lia).
      replace (Z.to_nat (Z.of_nat (S j) - 1)) with j by lia.
      simpl. rewrite Nat.sub_0_r. reflexivity.
  - destruct (Nat.eqb i (List.length posts - 1)) eqn:Hlast.
    + apply Nat.eqb_eq in Hlast.
      replace (Z.of_nat i <? Z.of_nat (List.length posts) - 1)%Z with false
        by (symmetry; apply Z.ltb_ge; lia).
      reflexivity.
    + apply Nat.eqb_neq in Hlast.
      replace (Z.of_nat i <? Z.of_nat (List.length posts) - 1)%Z with true
        by (symmetry; apply Z.ltb_lt; lia).
      replace (Z.to_nat (Z.of_nat i + 1)) with (i + 1)%nat by lia.
      reflexivity.
Qed.

Lemma Render_posts_ops (postTemplate : Template) (posts : list Post)
    (rest : list Post) :
  forall done st st',
    posts = done ++ rest ->
    Render_posts e (OutputOrDefault e) postTemplate posts
      (Z.of_nat (List.length done)) rest st = (None, st') ->
    ops st' =
    ops st ++ flat_map (postEvents e postTemplate posts)
                (seq (List.length done) (List.length rest)).
Proof.
  induction rest as [| post rest IH]; intros done st st' Hposts Hrun.
  - simpl in Hrun. injection Hrun as <-. simpl. symmetry. apply app_nil_r.
  - cbn [Render_posts] in Hrun.
    assert (Hnth : nth (List.length done) posts Post_zero = post)
      by (rewrite Hposts, app_nth2, Nat.sub_diag by lia; reflexivity).
    assert (Hlt : (List.length done < List.length posts)%nat)
      by (rewrite Hposts, length_app; simpl; lia).
    pose proof (MakeDir_ops (Join (OutputOrDefault e) (Slug post)) st) as Hmk.
    destruct (MakeDir (Join (OutputOrDefault e) (Slug post)) st) as [[err|] st1];
      [discriminate|].
    rewrite <- Hnth in Hrun at 2.
    rewrite Render_postData_neighbours in Hrun by assumption.
    pose proof (WriteTemplate_ops postTemplate
                  (Join (Join (OutputOrDefault e) (Slug post)) OutputFileIndex)
                  (postData e posts (List.length done)) st1) as Hwr.
    destruct (WriteTemplate postTemplate _ _ st1) as [[err|] st2]; [discriminate|].
    pose proof (Copy_ops (Post_Original post)
                  (Join (Join (OutputOrDefault e) (Slug post))
                        (Base (Post_Original post))) st2) as Hcp.
    destruct (Copy (Post_Original post) _ st2) as [[err|] st3]; [discriminate|].
    replace (Z.of_nat (List.length done) + 1)%Z
      with (Z.of_nat (List.length (done ++ [post]))) in Hrun
      by (rewrite length_app; simpl; lia).
    apply IH in Hrun; [| rewrite <- app_assoc; exact Hposts].
    simpl in Hmk, Hwr, Hcp.
    rewrite Hrun, Hcp, Hwr, Hmk.
    rewrite length_app. cbn [List.length seq flat_map].
    replace (List.length done + 1)%nat with (S (List.length done)) by lia.
    unfold postEvents at 2. rewrite Hnth. unfold Join, OutputFileIndex.
    rewrite <- !app_assoc. reflexivity.
Qed.

(** The operations of a rendering that succeeds. *)
Lemma Render_ops (posts : list Post) (st st' : State) :
  Render e posts st = (None, st') ->
  exists partials pageEvents st1 postTemplate,
    ReadPartials e (fs st) = inr partials /\
    Forall2 (pageEvent e posts) (Pages e) pageEvents /\
    CompileTemplate (PostOrDefault e) partials (fs st1) = inr postTemplate /\
    ops st' =
    ops st ++ pageEvents
      ++ flat_map (postEvents e postTemplate posts) (seq 0 (List.length posts)).
Proof.
  unfold Render. intros Hrun.
  destruct (ReadPartials e (fs st)) as [err | partials]; [discriminate|].
  destruct (Render_pages e (OutputOrDefault e) partials posts (Pages e) st)
    as [[err|] st1] eqn:Hpages; [discriminate|].
  destruct (Render_pages_ops _ _ _ _ Hpages) as (pageEvents & Hall & Hops1).
  destruct (CompileTemplate (PostOrDefault e) partials (fs st1))
    as [err | postTemplate] eqn:Hcompile; [discriminate|].
  exists partials, pageEvents, st1, postTemplate.
  repeat split; try assumption.
  rewrite (@Render_posts_ops postTemplate posts posts [] st1 st' eq_refl Hrun).
  rewrite Hops1, <- app_assoc. reflexivity.
Qed.

(** C8: a rendering that succeeds writes every configured page to
    [<output>/<page-basename>], and for every post, in order, makes the
    directory [<output>/<slug>], writes the post template, compiled from
    the configured post template path, to [<output>/<slug>/index.html] and
    copies the original image to [<output>/<slug>/<original-basename>]. *)
Theorem Render_output_layout (posts : list Post) (st st' : State) :
  Render e posts st = (None, st') ->
  exists partials pageEvents st1 postTemplate,
    ReadPartials e (fs st) = inr partials /\
    Forall2 (pageEvent e posts) (Pages e) pageEvents /\
    CompileTemplate (PostOrDefault e) partials (fs st1) = inr postTemplate /\
    ops st' =
    ops st ++ pageEvents
      ++ flat_map (postEvents e postTemplate posts) (seq 0 (List.length posts)).
Proof. apply Render_ops. Qed.

Lemma executed_app (evs1 evs2 : list Event) :
  executed (evs1 ++ evs2) = executed evs1 ++ executed evs2.
Proof.
  induction evs1 as [| ev rest IH]; [reflexivity|].
  destruct ev; simpl; rewrite IH; reflexivity.
Qed.

Lemma executed_pages (posts : list Post) (pages : list Path) (evs : list Event) :
  Forall2 (pageEvent e posts) pages evs ->
  List.length (executed evs) = List.length pages.
Proof.
  induction 1 as [| pagePath ev pages evs (page & ->) _ IH]; [reflexivity|].
  simpl. rewrite IH. reflexivity.
Qed.

Lemma executed_posts (postTemplate : Template) (posts : list Post)
    (indices : list nat) :
  executed (flat_map (postEvents e postTemplate posts) indices) =
  map (postData e posts) indices.
Proof.
  induction indices as [| i rest IH]; [reflexivity|].
  simpl. rewrite IH. reflexivity.
Qed.

Lemma skipn_exact (A : Type) (l1 l2 : list A) :
  skipn (List.length l1) (l1 ++ l2) = l2.
Proof. induction l1; simpl; auto. Qed.

(** C5: in a rendering that succeeds, the template executions after those
    of the pages are those of the posts in order, and the post at index [i]
    is rendered with the post at [i-1] as Previous, the zero Post when
    [i = 0], and with the post at [i+1] as Next, the zero Post when
    [i = L-1]. *)
Theorem Render_previous_next (posts : list Post) (st st' : State) :
  Render e posts st = (None, st') ->
  skipn (List.length (Pages e)) (executed (skipn (List.length (ops st)) (ops st'))) =
  map (postData e posts) (seq 0 (List.length posts)).
Proof.
  intros Hrun.
  destruct (@Render_ops posts st st' Hrun)
    as (partials & pageEvents & st1 & postTemplate & _ & Hpages & _ & Hops).
  rewrite Hops, skipn_exact, executed_app.
  rewrite <- (executed_pages Hpages), skipn_exact.
  apply executed_posts.
Qed.

End Rendering.

(** The neighbours at both ends and inside. *)
Lemma previousOf_first {IM : ImageModel} (posts : list Post) :
  previousOf posts 0 = Post_zero.
Proof. reflexivity. Qed.

Lemma nextOf_last {IM : ImageModel} (posts : list Post) :
  nextOf posts (List.length posts - 1) = Post_zero.
Proof. unfold nextOf. rewrite Nat.eqb_refl. reflexivity. Qed.

Lemma neighbours_inside {IM : ImageModel} (posts : list Post) (i : nat) :
  (0 < i)%nat -> (i < List.length posts - 1)%nat ->
  previousOf posts i = nth (i - 1) posts Post_zero /\
  nextOf posts i = nth (i + 1) posts Post_zero.
Proof.
  intros Hfirst Hlast. unfold previousOf, nextOf.
  replace (Nat.eqb i 0) with false by (symmetry; apply Nat.eqb_neq; lia).
  replace (Nat.eqb i (List.length posts - 1)) with false
    by (symmetry; apply Nat.eqb_neq; lia).
  split; reflexivity.
Qed.

(** ** The statements at work on the example trees *)

Lemma TreeHost_decoded_is_set (p : Path) (previous : Z) (fs : Node) (image : Z) :
  TreeHost.decode p previous fs = inr image -> (image =? 0)%Z = false.
Proof.
  unfold TreeHost.decode. destruct (ioutil_ReadFile p fs) as [err | data];
    [discriminate|].
  destruct data as [| c rest]; simpl; [discriminate|].
  intros Heq. injection Heq as <-. apply Z.eqb_neq. lia.
Qed.

Ltac distinct_names :=
  cbv; repeat (constructor; [simpl; intuition discriminate|]); constructor.

(** C4 at work: [images/b] has a metadata file with [posted: 7] and an
    image modified at 20; [images/a] has an image modified at 10 and no
    metadata file. *)
Lemma ReadImage_Posted_witness :
  Posted (Post_Meta (Examples.postOf ["images"; "b"] Examples.site)) = 7%Z /\
  Posted (Post_Meta (Examples.postOf ["images"; "a"] Examples.site)) = 10%Z.
Proof.
  split.
  - destruct (@ReadImage_Posted _ _ ["images"; "b"] Examples.site
                (Examples.statOf ["images"; "b"] Examples.site)
                (Examples.listingOf ["images"; "b"] Examples.site)
                (Examples.postOf ["images"; "b"] Examples.site))
      as [Hmeta _];
      [reflexivity | reflexivity | reflexivity | distinct_names | reflexivity |].
    apply (Hmeta (mkFileInfo "meta.yml" 21%Z false)
                 (TreeHost.setTitle "Harbour" (setPosted 7%Z Meta_zero)));
      [right; left; reflexivity | reflexivity | reflexivity | reflexivity].
  - destruct (@ReadImage_Posted _ _ ["images"; "a"] Examples.site
                (Examples.statOf ["images"; "a"] Examples.site)
                (Examples.listingOf ["images"; "a"] Examples.site)
                (Examples.postOf ["images"; "a"] Examples.site))
      as [_ Hdefault];
      [reflexivity | reflexivity | reflexivity | distinct_names | reflexivity |].
    destruct Hdefault as (img & Hin & _ & _ & _ & Hposted);
      [left; repeat constructor|].
    destruct Hin as [<- | []]. exact Hposted.
Defined.

(** C6 at work: [images/notes] holds a text file only. *)
Lemma ReadImage_without_image_witness :
  ReadImage ["images"; "notes"] Examples.odd
    = inl (NoImageFoundError ["images"; "notes"]).
Proof.
  destruct (@ReadImage_without_image _ _ ["images"; "notes"] Examples.odd
              (Examples.statOf ["images"; "notes"] Examples.odd)
              (Examples.listingOf ["images"; "notes"] Examples.odd))
    as (_ & Hnone & _);
    [reflexivity | reflexivity | reflexivity | distinct_names
    | repeat constructor |].
  apply Hnone; [discriminate | repeat constructor].
Defined.

(** C6 (as the specification has it) fails: the listing of
    [images/broken] is not empty and holds no image, and [ReadImage] fails
    with the error of the YAML library, not with [NoImageFoundError]. *)
Lemma ReadImage_unreadable_meta :
  GetFileInfos ["images"; "broken"] Examples.odd
    = inr [mkFileInfo "meta.yml" 41%Z false] /\
  HasExtension "meta.yml" ImageExtensions = false /\
  ReadImage ["images"; "broken"] Examples.odd
    = inl (LibraryError "yaml: unmarshal error") /\
  ReadImage ["images"; "broken"] Examples.odd
    <> inl (NoImageFoundError ["images"; "broken"]).
Proof.
  repeat split; try reflexivity. vm_compute. discriminate.
Qed.

(** C7 at work: [images/two] holds [1.jpg] and [2.jpg]; the Post is read
    from [1.jpg]. *)
Lemma ReadImage_first_image_witness :
  Post_Original (Examples.postOf ["images"; "two"] Examples.odd)
    = ["images"; "two"; "1.jpg"] /\
  Post_File (Examples.postOf ["images"; "two"] Examples.odd) = "1.jpg".
Proof.
  destruct (@ReadImage_first_image TreeHost.image TreeHost.host
              ["images"; "two"] Examples.odd
              eq_refl TreeHost_decoded_is_set
              [] [mkFileInfo "2.jpg" 52%Z false] (mkFileInfo "1.jpg" 51%Z false))
    as [_ Hfirst]; [constructor | reflexivity |].
  destruct (Hfirst (Examples.postOf ["images"; "two"] Examples.odd) eq_refl)
    as (Horiginal & Hfile & _).
  split; assumption.
Defined.

(** C10 at work: the listing of [images/b] with the metadata file first
    and with the metadata file last. *)
Lemma ReadImage_meta_position_witness :
  ReadImage_files ["images"; "b"] Examples.site
    [mkFileInfo "meta.yml" 21%Z false; mkFileInfo "b.jpg" 20%Z false]
    = inr (Examples.postOf ["images"; "b"] Examples.site) <->
  ReadImage_files ["images"; "b"] Examples.site
    [mkFileInfo "b.jpg" 20%Z false; mkFileInfo "meta.yml" 21%Z false]
    = inr (Examples.postOf ["images"; "b"] Examples.site).
Proof.
  apply (@ReadImage_meta_position _ _ ["images"; "b"] Examples.site
           [] [mkFileInfo "b.jpg" 20%Z false] []
           (mkFileInfo "meta.yml" 21%Z false)
           (Examples.postOf ["images"; "b"] Examples.site));
    [reflexivity | repeat constructor].
Defined.

(** C5 at work: the three posts of [Examples.site]. *)
Lemma Render_previous_next_witness :
  skipn (List.length (Pages Examples.blog))
    (executed
       (skipn (List.length (ops Examples.start))
          (ops (snd (Render Examples.blog Examples.sitePosts Examples.start))))) =
  map (postData Examples.blog Examples.sitePosts)
      (seq 0 (List.length Examples.sitePosts)).
Proof.
  apply (@Render_previous_next _ _ Examples.blog Examples.sitePosts Examples.start
           (snd (Render Examples.blog Examples.sitePosts Examples.start))).
  vm_compute. reflexivity.
Defined.

(** C8 at work: the operations of rendering [Examples.site]. *)
Lemma Render_output_layout_witness :
  exists partials pageEvents st1 postTemplate,
    ReadPartials Examples.blog (fs Examples.start) = inr partials /\
    Forall2 (pageEvent Examples.blog Examples.sitePosts) (Pages Examples.blog)
      pageEvents /\
    CompileTemplate (PostOrDefault Examples.blog) partials (fs st1)
      = inr postTemplate /\
    ops (snd (Render Examples.blog Examples.sitePosts Examples.start)) =
    ops Examples.start ++ pageEvents
      ++ flat_map (postEvents Examples.blog postTemplate Examples.sitePosts)
           (seq 0 (List.length Examples.sitePosts)).
Proof.
  apply (@Render_output_layout _ _ Examples.blog Examples.sitePosts Examples.start
           (snd (Render Examples.blog Examples.sitePosts Examples.start))).
  vm_compute. reflexivity.
Defined.

(** The pipeline on the example trees: discovery fails on the first folder
    without an image and nothing else is run; on [Examples.site] the whole
    run succeeds. *)
Example Generate_stops_at_discovery :
  Generate Examples.blog (mkState Examples.odd []) =
  (Some (NoImageFoundError ["images"; "notes"]), mkState Examples.odd []).
Proof. vm_compute. reflexivity. Qed.

Example Generate_site :
  fst (Generate Examples.blog Examples.start) = None /\
  List.length (ops (snd (Generate Examples.blog Examples.start))) = 10%nat.
Proof. split; vm_compute; reflexivity. Qed.

(** * Further properties of the engine *)

(** ** ReadPartials and CompileTemplate *)

Section Partials.
Context {IM : ImageModel} {H : Host}.

Lemma ReadPartials_loop_contents (paths : list Path) (fs : Node) :
  forall partials all,
    ReadPartials_loop paths fs partials = inr all <->
    exists contents,
      all = partials ++ contents /\
      Forall2 (fun p c => ioutil_ReadFile p fs = inr c) paths contents.
Proof.
  induction paths as [| p rest IH]; intros partials all; simpl.
  - split.
    + intros Heq. injection Heq as <-. exists []. split;
        [symmetry; apply app_nil_r | constructor].
    + intros (contents & -> & Hall). inversion Hall. rewrite app_nil_r. reflexivity.
  - destruct (ioutil_ReadFile p fs) as [err | c] eqn:Hread.
    + split; [discriminate|].
      intros (contents & _ & Hall). inversion Hall; subst. congruence.
    + rewrite IH. split.
      * intros (contents & -> & Hall). exists (c :: contents).
        split; [rewrite <- app_assoc; reflexivity | constructor; assumption].
      * intros (contents & -> & Hall). inversion Hall as [| ? c' ? cs Hc Hcs]; subst.
        assert (c' = c) by congruence. subst c'.
        exists cs. split; [rewrite <- app_assoc; reflexivity | assumption].
Qed.

(** X1: [ReadPartials] succeeds exactly when every configured partial can be
    read, and then returns their contents, one per path and in the order of
    the configuration. *)
Theorem ReadPartials_contents (e : Config) (fs : Node) (partials : list string) :
  ReadPartials e fs = inr partials <->
  Forall2 (fun p c => ioutil_ReadFile p fs = inr c) (PartialsOrDefault e) partials.
Proof.
  unfold ReadPartials. rewrite ReadPartials_loop_contents. simpl. split.
  - intros (contents & -> & Hall). assumption.
  - intros Hall. exists partials. split; [reflexivity | assumption].
Qed.

Lemma ReadPartials_loop_failure (readable : list Path) (bad : Path)
    (rest : list Path) (fs : Node) (err : error) :
  Forall (fun p => exists c, ioutil_ReadFile p fs = inr c) readable ->
  ioutil_ReadFile bad fs = inl err ->
  forall partials,
    ReadPartials_loop (readable ++ bad :: rest) fs partials
      = inl (exception_wrap err).
Proof.
  intros Hok Hbad. induction Hok as [| p ps (c & Hc) _ IH]; intros partials; simpl.
  - rewrite Hbad. reflexivity.
  - rewrite Hc. apply IH.
Qed.

(** X2: when a configured partial cannot be read, [ReadPartials] returns no
    partials at all: it fails with the error of the first unreadable one,
    passed through [exception.New], whatever comes after it. *)
Theorem ReadPartials_first_failure (e : Config) (fs : Node)
    (readable : list Path) (bad : Path) (rest : list Path) (err : error) :
  PartialsOrDefault e = readable ++ bad :: rest ->
  Forall (fun p => exists c, ioutil_ReadFile p fs = inr c) readable ->
  ioutil_ReadFile bad fs = inl err ->
  ReadPartials e fs = inl (exception_wrap err).
Proof.
  intros Hpaths Hok Hbad. unfold ReadPartials. rewrite Hpaths.
  apply ReadPartials_loop_failure; assumption.
Qed.

Lemma CompileTemplate_partials_wrapped (partials : list string) :
  forall tmp err,
    CompileTemplate_partials tmp partials = inl err ->
    exists cause, err = exception_wrap cause.
Proof.
  induction partials as [| partial rest IH]; intros tmp err Hrun; simpl in Hrun.
  - discriminate.
  - destruct (Parse tmp partial) as [cause | tmp'].
    + injection Hrun as <-. exists cause. reflexivity.
    + eapply IH. exact Hrun.
Qed.

(** X3: every error of [CompileTemplate], from the read of the main
    template as from the parse of a partial or of the main template, has
    gone through [exception.New]. *)
Theorem CompileTemplate_errors_wrapped (templatePath : Path)
    (partials : list string) (fs : Node) (err : error) :
  CompileTemplate templatePath partials fs = inl err ->
  exists cause, err = exception_wrap cause.
Proof.
  unfold CompileTemplate.
  destruct (ioutil_ReadFile templatePath fs) as [cause | contents].
  - intros Heq. injection Heq as <-. exists cause. reflexivity.
  - destruct (CompileTemplate_partials template_New partials) as [err' | tmp] eqn:Hp.
    + intros Heq. injection Heq as <-.
      eapply CompileTemplate_partials_wrapped. exact Hp.
    + destruct (Parse tmp contents) as [cause | final]; [|discriminate].
      intros Heq. injection Heq as <-. exists cause. reflexivity.
Qed.

End Partials.

(** ** ReadImage *)

Section ReadingMore.
Context {IM : ImageModel} {H : Host}.
Variables (path : Path) (fs : Node).

Lemma ReadImage_inr_files (post : Post) :
  ReadImage path fs = inr post ->
  exists stat files,
    os_Stat path fs = inr stat /\ IsDir stat = true /\
    GetFileInfos path fs = inr files /\
    ReadImage_files path fs files = inr post.
Proof.
  unfold ReadImage. intros Hrun.
  destruct (os_Stat path fs) as [err | stat]; [discriminate|].
  destruct (IsDir stat) eqn:Hdir; [|discriminate]. simpl in Hrun.
  destruct (GetFileInfos path fs) as [err | files]; [discriminate|].
  exists stat, files. repeat split; assumption.
Qed.

(** X4: [ReadImage] returns a Post only for a directory: a path that does
    not exist fails with the error of [os.Stat], and a regular file fails
    with "not a directory". *)
Theorem ReadImage_requires_directory :
  (lookup path fs = None -> ReadImage path fs = inl (PathError "stat" path)) /\
  (forall t data,
     lookup path fs = Some (FileNode t data) ->
     ReadImage path fs = inl (NotADirectoryError path)) /\
  (forall post,
     ReadImage path fs = inr post ->
     exists t entries, lookup path fs = Some (DirNode t entries)).
Proof.
  unfold ReadImage, os_Stat. repeat split.
  - intros ->. reflexivity.
  - intros t data ->. reflexivity.
  - intros post. destruct (lookup path fs) as [[t data | t entries] |];
      simpl; try discriminate.
    intros _. exists t, entries. reflexivity.
Qed.



Lemma setPosted_same (meta : Meta) : setPosted (Posted meta) meta = meta.
Proof. destruct meta; reflexivity. Qed.

Lemma ReadImage_files_meta (files : list FileInfo) (post : Post) :
  ReadImage_files path fs files = inr post ->
  exists acc,
    ReadImage_loop path fs files (Post_zero, Time_zero) = inr acc /\
    Post_Meta post = setPosted (Posted (Post_Meta post)) (Post_Meta (fst acc)).
Proof.
  unfold ReadImage_files. intros Hrun.
  destruct (Z.of_nat (List.length files) =? 0)%Z; [discriminate|].
  destruct (ReadImage_loop path fs files (Post_zero, Time_zero))
    as [err | [p modTime]]; [discriminate|].
  exists (p, modTime). split; [reflexivity|]. simpl.
  destruct (Time_IsZero (Posted (Post_Meta p))); simpl in Hrun;
    (destruct (Path_eqb (Post_Original p) []); [discriminate|]);
    injection Hrun as <-; simpl; [reflexivity | symmetry; apply setPosted_same].
Qed.

(** X6: apart from [Posted], the metadata of the Post is what the metadata
    file holds, field for field; without a metadata file every field but
    [Posted] is zero. *)
Theorem ReadImage_keeps_metadata (files : list FileInfo) (post : Post) :
  GetFileInfos path fs = inr files ->
  NoDup (map Name files) ->
  ReadImage path fs = inr post ->
  (forall m meta,
     In m files -> isMeta m = true ->
     ReadYAML (Join path (Name m)) Meta_zero fs = inr meta ->
     Post_Meta post = setPosted (Posted (Post_Meta post)) meta) /\
  (Forall (fun fi => isMeta fi = false) files ->
   Post_Meta post = setPosted (Posted (Post_Meta post)) Meta_zero).
Proof.
  intros Hlist Hnodup Hrun.
  destruct (ReadImage_inr_files Hrun) as (stat & files' & _ & _ & Hlist' & Hfiles).
  assert (files' = files) by congruence. subst files'.
  destruct (ReadImage_files_meta files Hfiles) as (acc & Hloop & Hmeta).
  split.
  - intros m meta Hin Hm Hyaml.
    destruct (single_meta files m Hnodup Hin Hm)
      as (before & after & Hsplit & Hbefore & Hafter).
    rewrite Hsplit in Hloop.
    pose proof (loop_single_meta path fs _ _ Hm Hbefore Hafter Hloop) as Hread.
    simpl in Hread. rewrite Hmeta. congruence.
  - intros Hnone. rewrite Hmeta.
    rewrite (loop_keeps_meta path fs Hnone _ Hloop). reflexivity.
Qed.

Section NoFallback.
Hypothesis zero_is_zero : Image_IsZero Image_zero = true.

(** X7: when the first image of the listing does not decode, [ReadImage]
    returns no Post, whatever images come after it; if no metadata file
    stands before that image, the error is the one of the decoder. *)
Theorem ReadImage_no_fallback (before after : list FileInfo) (img : FileInfo)
    (err : error) :
  Forall (fun fi => isImage fi = false) before ->
  isImage img = true ->
  decodeImage (Join path (Name img)) Image_zero fs = inl err ->
  (forall post, ReadImage_files path fs (before ++ img :: after) <> inr post) /\
  (Forall (fun fi => isMeta fi = false) before ->
   ReadImage_files path fs (before ++ img :: after) = inl err).
Proof.
  intros Hbefore Himg Hdecode.
  rewrite ReadImage_files_finish by (destruct before; discriminate).
  rewrite ReadImage_loop_app.
  assert (Hstep : forall acc1,
            ReadImage_loop path fs before (Post_zero, Time_zero) = inr acc1 ->
            ReadImage_loop path fs (img :: after) acc1 = inl err).
  { intros acc1 Hfirst.
    destruct (loop_keeps_image path fs Hbefore _ Hfirst) as (_ & _ & Himage & _).
    simpl in Himage. cbn [ReadImage_loop].
    rewrite round_image by (try assumption; rewrite Himage; assumption).
    rewrite Himage, Hdecode. reflexivity. }
  split.
  - intros post.
    destruct (ReadImage_loop path fs before (Post_zero, Time_zero))
      as [err' | acc1]; [discriminate|].
    cbn [ReadImage_from]. rewrite (Hstep acc1 eq_refl). discriminate.
  - intros Hnone. rewrite loop_skips by assumption.
    cbn [ReadImage_from]. rewrite (Hstep _ (loop_skips path fs _ Hnone Hbefore)).
    reflexivity.
Qed.

End NoFallback.
End ReadingMore.

(** ** DiscoverPosts *)

Section DiscoveryMore.
Context {IM : ImageModel} {H : Host}.

Lemma ReadImage_each_inr (dirs : list Path) (fs : Node) :
  forall posts all,
    ReadImage_each dirs fs posts = inr all ->
    exists found,
      all = posts ++ found /\
      Forall2 (fun dir post => ReadImage dir fs = inr post) dirs found.
Proof.
  induction dirs as [| dir rest IH]; intros posts all Hrun; simpl in Hrun.
  - injection Hrun as <-. exists []. split; [symmetry; apply app_nil_r | constructor].
  - destruct (ReadImage dir fs) as [err | post] eqn:Hread; [discriminate|].
    destruct (IH _ _ Hrun) as (found & -> & Hall).
    exists (post :: found). split; [rewrite <- app_assoc; reflexivity|].
    constructor; assumption.
Qed.

Lemma DiscoverPosts_each (e : Config) (fs : Node) (n : Node) :
  lookup (ImagesOrDefault e) fs = Some n ->
  DiscoverPosts e fs = ReadImage_each (directoriesBelow (ImagesOrDefault e) n) fs [].
Proof.
  intros Hroot. unfold DiscoverPosts, Walk. rewrite Hroot.
  rewrite <- (walk_root (ImagesOrDefault e) fs n (Base (ImagesOrDefault e)) []).
  destruct (walk _ _ n _ _) as [[err|] posts]; reflexivity.
Qed.

(** X8: a discovery that succeeds returns exactly one Post for each
    directory below the images root, in the order of the walk: the Post at
    each position is the one [ReadImage] returns for the directory at that
    position. *)
Theorem DiscoverPosts_one_post_per_directory (e : Config) (fs : Node) (n : Node)
    (posts : list Post) :
  lookup (ImagesOrDefault e) fs = Some n ->
  DiscoverPosts e fs = inr posts ->
  Forall2 (fun dir post => ReadImage dir fs = inr post)
          (directoriesBelow (ImagesOrDefault e) n) posts.
Proof.
  intros Hroot Hrun. rewrite (DiscoverPosts_each e fs Hroot) in Hrun.
  destruct (ReadImage_each_inr _ _ _ Hrun) as (found & -> & Hall). exact Hall.
Qed.

(** X9: the images root itself is never checked: a root that does not
    exist fails with the error of [Lstat], but a root that is a regular
    file, or a directory without entries, gives no posts and no error. *)
Theorem DiscoverPosts_degenerate_root (e : Config) (fs : Node) :
  (lookup (ImagesOrDefault e) fs = None ->
   DiscoverPosts e fs = inl (PathError "lstat" (ImagesOrDefault e))) /\
  (forall t data,
     lookup (ImagesOrDefault e) fs = Some (FileNode t data) ->
     DiscoverPosts e fs = inr []) /\
  (forall t,
     lookup (ImagesOrDefault e) fs = Some (DirNode t []) ->
     DiscoverPosts e fs = inr []).
Proof.
  repeat split.
  - intros Hroot. unfold DiscoverPosts, Walk. rewrite Hroot. reflexivity.
  - intros t data Hroot. rewrite (DiscoverPosts_each e fs Hroot). reflexivity.
  - intros t Hroot. rewrite (DiscoverPosts_each e fs Hroot). reflexivity.
Qed.

Lemma directoriesBelow_below (n : Node) :
  forall path dir,
    In dir (directoriesBelow path n) ->
    exists extra, extra <> [] /\ dir = path ++ extra.
Proof.
  induction n as [t data | t entries IH] using Node_nested_ind;
    intros path dir Hin; [contradiction|].
  cbn [directoriesBelow] in Hin.
  induction entries as [| [nm child] es IHes]; [contradiction|].
  inversion IH as [| ? ? Hchild Hrest]; subst. simpl in Hchild.
  apply in_app_or in Hin as [Hin | Hin]; [| apply IHes; assumption].
  apply in_app_or in Hin as [Hin | Hin].
  - destruct child; [contradiction|]. destruct Hin as [<- | []].
    exists [nm]. split; [discriminate | reflexivity].
  - destruct (Hchild _ _ Hin) as (extra & _ & ->).
    exists (nm :: extra). split; [discriminate|].
    unfold Join. rewrite <- app_assoc. reflexivity.
Qed.

Lemma ReadImage_original (path : Path) (fs : Node) (post : Post) :
  ReadImage path fs = inr post ->
  Post_Original post = Join path (Post_File post).
Proof.
  intros Hrun.
  destruct (ReadImage_inr_files path fs Hrun) as (stat & files & _ & _ & _ & Hfiles).
  destruct (ReadImage_files_result path fs files Hfiles)
    as (acc & Hloop & Hfound & Horiginal & Hfile & _ & _).
  destruct (@loop_image_source _ _ path fs files files (incl_refl files)
              (Post_zero, Time_zero) acc (or_introl eq_refl) Hloop)
    as [Hnone | (img & _ & _ & Hf & Ho & _)]; [contradiction|].
  congruence.
Qed.

(** X10: the image of every discovered Post lies in a directory strictly
    below the images root: [Original] is the root, at least one directory
    name, and [File].  A file that sits in the images root itself is never
    the image of a Post. *)
Theorem DiscoverPosts_originals_below_root (e : Config) (fs : Node)
    (posts : list Post) (post : Post) :
  DiscoverPosts e fs = inr posts ->
  In post posts ->
  exists extra,
    extra <> [] /\
    Post_Original post = ImagesOrDefault e ++ extra ++ [Post_File post].
Proof.
  intros Hrun Hin.
  destruct (lookup (ImagesOrDefault e) fs) as [n|] eqn:Hroot.
  - rewrite (DiscoverPosts_each e fs Hroot) in Hrun.
    destruct (ReadImage_each_inr _ _ _ Hrun) as (found & Heq & Hall).
    simpl in Heq. subst found.
    assert (Hdir : exists dir,
              In dir (directoriesBelow (ImagesOrDefault e) n) /\
              ReadImage dir fs = inr post).
    { clear Hrun. induction Hall as [| dir p dirs ps Hp _ IH]; [contradiction|].
      destruct Hin as [<- | Hin].
      - exists dir. split; [left; reflexivity | assumption].
      - destruct (IH Hin) as (d & Hd & Hread). exists d. split; [right|]; assumption. }
    destruct Hdir as (dir & Hdir & Hread).
    destruct (directoriesBelow_below _ _ _ Hdir) as (extra & Hne & ->).
    exists extra. split; [assumption|].
    rewrite (ReadImage_original _ _ Hread). unfold Join.
    rewrite <- app_assoc. reflexivity.
  - unfold DiscoverPosts, Walk in Hrun. rewrite Hroot in Hrun. discriminate.
Qed.

End DiscoveryMore.

(** ** The output side: CreateOutputPath, Render, CopyStatics, Generate *)

Section OutputMore.
Context {IM : ImageModel} {H : Host}.
Variable e : Config.

Lemma CopyStatics_loop_ops (staticPaths : list Path) :
  forall st,
    exists k,
      (k <= List.length staticPaths)%nat /\
      ops (snd (CopyStatics_loop (OutputOrDefault e) staticPaths st)) =
        ops st ++ copyEvents e (firstn k staticPaths) /\
      (fst (CopyStatics_loop (OutputOrDefault e) staticPaths st) = None ->
       k = List.length staticPaths).
Proof.
  induction staticPaths as [| staticPath rest IH]; intros st.
  - exists 0%nat. simpl. rewrite app_nil_r. auto.
  - cbn [CopyStatics_loop].
    pose proof (Copy_ops staticPath (OutputOrDefault e) st) as Hcopy.
    destruct (Copy staticPath (OutputOrDefault e) st) as [[err|] st1];
      simpl in Hcopy.
    + exists 1%nat. simpl. repeat split; [lia | assumption | discriminate].
    + destruct (IH st1) as (k & Hk & Hops & Hall).
      exists (S k). repeat split.
      * simpl. lia.
      * rewrite Hops, Hcopy, <- app_assoc. reflexivity.
      * intros Hnone. simpl. f_equal. apply Hall. exact Hnone.
Qed.


Section Idempotence.
Hypothesis MakeDir_creates :
  forall p fs fs', hostMakeDir p fs = (None, fs') -> lookup p fs' <> None.

(** X12: when the directory helper leaves something at the path it
    reports created, [CreateOutputPath] is idempotent: after a run that
    returned nil, a second run returns nil and changes nothing. *)
Theorem CreateOutputPath_idempotent (st st1 : State) :
  CreateOutputPath e st = (None, st1) ->
  CreateOutputPath e st1 = (None, st1).
Proof.
  unfold CreateOutputPath, os_Stat. intros Hrun.
  destruct (lookup (OutputOrDefault e) (fs st)) as [n|] eqn:Hfirst.
  - injection Hrun as <-. rewrite Hfirst. reflexivity.
  - unfold MakeDir in Hrun. simpl in Hrun.
    destruct (hostMakeDir (OutputOrDefault e) (fs st)) as [[err|] fs'] eqn:Hmk;
      simpl in Hrun; [discriminate|].
    injection Hrun as <-. simpl.
    destruct (lookup (OutputOrDefault e) fs') eqn:Hsecond; [reflexivity|].
    exfalso. eapply MakeDir_creates; eassumption.
Qed.

End Idempotence.

Lemma nth_error_in_range (posts : list Post) (i : nat) :
  (i < List.length posts)%nat ->
  index_checked posts (Z.of_nat i) = Some (index_posts posts (Z.of_nat i)).
Proof.
  intros Hi. unfold index_checked, index_posts.
  replace ((0 <=? Z.of_nat i) && (Z.of_nat i <? Z.of_nat (List.length posts)))%Z
    with true
    by (symmetry; apply andb_true_iff; split;
        [apply Z.leb_le | apply Z.ltb_lt]; lia).
  rewrite Nat2Z.id. apply nth_error_nth'. assumption.
Qed.

(** X13: the two slice accesses of the loop of [Render] stay inside the
    slice: at every index of the loop the guards [index > 0] and
    [index < len(posts)-1] keep [posts[index-1]] and [posts[index+1]] in
    range, so building the view model never panics. *)
Theorem Render_postData_in_range (posts : list Post) (i : nat) (post : Post) :
  (i < List.length posts)%nat ->
  Render_postData_checked e posts (Z.of_nat i) post =
  Some (Render_postData e posts (Z.of_nat i) post).
Proof.
  intros Hi. unfold Render_postData_checked, Render_postData.
  destruct (Z.of_nat i >? 0)%Z eqn:Hprev;
    destruct (Z.of_nat i <? Z.of_nat (List.length posts) - 1)%Z eqn:Hnext;
    try apply Z.gtb_lt in Hprev; try apply Z.ltb_lt in Hnext;
    try (replace (Z.of_nat i - 1)%Z with (Z.of_nat (i - 1)) by lia;
         rewrite nth_error_in_range by lia);
    try (replace (Z.of_nat i + 1)%Z with (Z.of_nat (i + 1)) by lia;
         rewrite nth_error_in_range by lia);
    reflexivity.
Qed.

Lemma Render_posts_prefix (postTemplate : Template) (posts : list Post)
    (rest : list Post) :
  forall done st,
    posts = done ++ rest ->
    exists evs more,
      ops (snd (Render_posts e (OutputOrDefault e) postTemplate posts
                  (Z.of_nat (List.length done)) rest st)) = ops st ++ evs /\
      evs ++ more =
        flat_map (postEvents e postTemplate posts)
          (seq (List.length done) (List.length rest)) /\
      (fst (Render_posts e (OutputOrDefault e) postTemplate posts
              (Z.of_nat (List.length done)) rest st) = None -> more = []).
Proof.
  induction rest as [| post rest IH]; intros done st Hposts.
  - exists [], []. simpl. rewrite app_nil_r. auto.
  - cbn [Render_posts].
    assert (Hnth : nth (List.length done) posts Post_zero = post)
      by (rewrite Hposts, app_nth2, Nat.sub_diag by lia; reflexivity).
    assert (Hlt : (List.length done < List.length posts)%nat)
      by (rewrite Hposts, length_app; simpl; lia).
    assert (Hplan :
      flat_map (postEvents e postTemplate posts)
        (seq (List.length done) (List.length (post :: rest))) =
      [EvMakeDir (Join (OutputOrDefault e) (Slug post));
       EvWriteTemplate postTemplate
         (Join (Join (OutputOrDefault e) (Slug post)) OutputFileIndex)
         (postData e posts (List.length done));
       EvCopy (Post_Original post)
         (Join (Join (OutputOrDefault e) (Slug post)) (Base (Post_Original post)))]
      ++ flat_map (postEvents e postTemplate posts)
           (seq (List.length (done ++ [post])) (List.length rest))).
    { cbn [List.length seq flat_map]. unfold postEvents at 1. rewrite Hnth.
      rewrite length_app. simpl.
      replace (List.length done + 1)%nat with (S (List.length done)) by lia.
      reflexivity. }
    rewrite Hplan.
    pose proof (MakeDir_ops (Join (OutputOrDefault e) (Slug post)) st) as Hmk.
    destruct (MakeDir (Join (OutputOrDefault e) (Slug post)) st) as [[err|] st1];
      simpl in Hmk.
    { eexists [_], _. simpl. repeat split; [exact Hmk | discriminate]. }
    assert (Hdata : Render_postData e posts (Z.of_nat (List.length done)) post
                    = postData e posts (List.length done))
      by (rewrite <- Hnth; apply Render_postData_neighbours; assumption).
    rewrite Hdata.
    pose proof (WriteTemplate_ops postTemplate
                  (Join (Join (OutputOrDefault e) (Slug post)) OutputFileIndex)
                  (postData e posts (List.length done)) st1) as Hwr.
    destruct (WriteTemplate postTemplate _ _ st1) as [[err|] st2]; simpl in Hwr.
    { eexists [_; _], _. simpl. repeat split; [|discriminate].
      rewrite Hwr, Hmk, <- app_assoc. reflexivity. }
    pose proof (Copy_ops (Post_Original post)
                  (Join (Join (OutputOrDefault e) (Slug post))
                        (Base (Post_Original post))) st2) as Hcp.
    destruct (Copy (Post_Original post) _ st2) as [[err|] st3]; simpl in Hcp.
    { eexists [_; _; _], _. simpl. repeat split; [|discriminate].
      rewrite Hcp, Hwr, Hmk, <- !app_assoc. reflexivity. }
    replace (Z.of_nat (List.length done) + 1)%Z
      with (Z.of_nat (List.length (done ++ [post])))
      by (rewrite length_app; simpl; lia).
    destruct (IH (done ++ [post]) st3) as (evs & more & Hops & Hsplit & Hdone);
      [rewrite <- app_assoc; exact Hposts|].
    eexists (_ :: _ :: _ :: evs), more. repeat split.
    + rewrite Hops, Hcp, Hwr, Hmk, <- !app_assoc. reflexivity.
    + simpl. rewrite Hsplit. reflexivity.
    + exact Hdone.
Qed.

(** X14: the loop of [Render] over the posts is not transactional and
    keeps to the order of the posts: whatever it returns, the operations it
    has performed are an initial part of those of a complete run (directory,
    page, copy for the first post, then for the second, and so on), and all
    of them when it returns nil. *)
Theorem Render_posts_in_order (postTemplate : Template) (posts : list Post)
    (st : State) :
  exists evs more,
    ops (snd (Render_posts e (OutputOrDefault e) postTemplate posts 0 posts st))
      = ops st ++ evs /\
    evs ++ more =
      flat_map (postEvents e postTemplate posts) (seq 0 (List.length posts)) /\
    (fst (Render_posts e (OutputOrDefault e) postTemplate posts 0 posts st) = None ->
     more = []).
Proof. apply (@Render_posts_prefix postTemplate posts posts [] st eq_refl). Qed.

End OutputMore.

Section PipelineMore.
Context {IM : ImageModel} {H : Host}.
Variable e : Config.

Lemma below_output : below (OutputOrDefault e) (OutputOrDefault e).
Proof. exists []. symmetry. apply app_nil_r. Qed.

Lemma below_Join (p : Path) (name : string) :
  below (OutputOrDefault e) p -> below (OutputOrDefault e) (Join p name).
Proof.
  intros (extra & ->). exists (extra ++ [name]). unfold Join.
  rewrite app_assoc. reflexivity.
Qed.

Lemma grown_refl (st : State) : grownBelow e st st.
Proof. exists []. split; [symmetry; apply app_nil_r | constructor]. Qed.

Lemma grown_trans (st st1 st2 : State) :
  grownBelow e st st1 -> grownBelow e st1 st2 -> grownBelow e st st2.
Proof.
  intros (evs1 & Hops1 & Hall1) (evs2 & Hops2 & Hall2).
  exists (evs1 ++ evs2). split.
  - rewrite Hops2, Hops1, app_assoc. reflexivity.
  - apply Forall_app. split; assumption.
Qed.

Lemma grown_step (st st' : State) (ev : Event) :
  ops st' = ops st ++ [ev] ->
  below (OutputOrDefault e) (destination ev) ->
  grownBelow e st st'.
Proof.
  intros Hops Hbelow. exists [ev]. split; [assumption|].
  constructor; [assumption | constructor].
Qed.

Lemma Render_pages_grown (partials : list string) (posts : list Post)
    (pages : list Path) :
  forall st,
    grownBelow e st
      (snd (Render_pages e (OutputOrDefault e) partials posts pages st)).
Proof.
  induction pages as [| pagePath rest IH]; intros st; cbn [Render_pages].
  - apply grown_refl.
  - destruct (CompileTemplate pagePath partials (fs st)) as [err | page];
      [apply grown_refl|].
    pose proof (WriteTemplate_ops page (Join (OutputOrDefault e) (Base pagePath))
                  (mkViewModel e posts Post_zero Post_zero Post_zero) st) as Hops.
    assert (Hstep : grownBelow e st
              (snd (WriteTemplate page (Join (OutputOrDefault e) (Base pagePath))
                      (mkViewModel e posts Post_zero Post_zero Post_zero) st)))
      by (eapply grown_step; [exact Hops | apply below_Join, below_output]).
    destruct (WriteTemplate page _ _ st) as [[err|] st1]; simpl in Hstep;
      [exact Hstep|].
    eapply grown_trans; [exact Hstep | apply IH].
Qed.

Lemma postEvents_below (postTemplate : Template) (posts : list Post)
    (indices : list nat) :
  Forall (fun ev => below (OutputOrDefault e) (destination ev))
         (flat_map (postEvents e postTemplate posts) indices).
Proof.
  induction indices as [| i rest IH]; [constructor|].
  cbn [flat_map]. apply Forall_app. split; [|exact IH].
  unfold postEvents.
  repeat constructor; simpl;
    [ exists [Slug (nth i posts Post_zero)]
    | exists [Slug (nth i posts Post_zero); "index.html"]
    | exists [Slug (nth i posts Post_zero);
              Base (Post_Original (nth i posts Post_zero))] ];
    rewrite <- ?app_assoc; reflexivity.
Qed.

Lemma Render_posts_grown (postTemplate : Template) (posts : list Post)
    (st : State) :
  grownBelow e st
    (snd (Render_posts e (OutputOrDefault e) postTemplate posts 0 posts st)).
Proof.
  destruct (@Render_posts_prefix _ _ e postTemplate posts posts [] st eq_refl)
    as (evs & more & Hops & Hsplit & _).
  exists evs. split; [exact Hops|].
  pose proof (postEvents_below postTemplate posts (seq 0 (List.length posts)))
    as Hall.
  simpl in Hsplit. rewrite <- Hsplit in Hall.
  apply Forall_app in Hall. apply Hall.
Qed.

Lemma Render_grown (posts : list Post) (st : State) :
  grownBelow e st (snd (Render e posts st)).
Proof.
  unfold Render.
  destruct (ReadPartials e (fs st)) as [err | partials]; [apply grown_refl|].
  pose proof (Render_pages_grown partials posts (Pages e) st) as Hpages.
  destruct (Render_pages e (OutputOrDefault e) partials posts (Pages e) st)
    as [[err|] st1]; simpl in Hpages; [exact Hpages|].
  destruct (CompileTemplate (PostOrDefault e) partials (fs st1))
    as [err | postTemplate]; [exact Hpages|].
  eapply grown_trans; [exact Hpages | apply Render_posts_grown].
Qed.

Lemma CopyStatics_grown (st : State) : grownBelow e st (snd (CopyStatics e st)).
Proof.
  destruct (@CopyStatics_loop_ops _ _ e (StaticsOrDefault e) st)
    as (k & _ & Hops & _).
  exists (copyEvents e (firstn k (StaticsOrDefault e))). split; [exact Hops|].
  unfold copyEvents. apply Forall_forall. intros ev Hin.
  apply in_map_iff in Hin as (staticPath & <- & _). apply below_output.
Qed.

Lemma CreateOutputPath_grown (st : State) :
  grownBelow e st (snd (CreateOutputPath e st)).
Proof.
  unfold CreateOutputPath.
  destruct (os_Stat (OutputOrDefault e) (fs st)); [|apply grown_refl].
  pose proof (MakeDir_ops (OutputOrDefault e) st) as Hops.
  destruct (MakeDir (OutputOrDefault e) st) as [err st1]. simpl in *.
  eapply grown_step; [exact Hops | apply below_output].
Qed.

(** X15: whatever [Generate] returns, every operation it has performed
    writes to the output path or to a path made by joining names onto it
    (a page name, a slug, [index.html], the base name of an image): no
    directory is made, no page written and no file copied to a path built
    from anything else. *)
Theorem Generate_writes_below_output (st : State) :
  grownBelow e st (snd (Generate e st)).
Proof.
  unfold Generate.
  destruct (DiscoverPosts e (fs st)) as [err | posts]; [apply grown_refl|].
  pose proof (CreateOutputPath_grown st) as Hcreate.
  destruct (CreateOutputPath e st) as [[err|] st1]; simpl in Hcreate;
    [exact Hcreate|].
  pose proof (Render_grown posts st1) as Hrender.
  destruct (Render e posts st1) as [[err|] st2]; simpl in Hrender;
    [eapply grown_trans; eassumption|].
  pose proof (CopyStatics_grown st2) as Hcopy.
  destruct (CopyStatics e st2) as [[err|] st3]; simpl in Hcopy;
    eapply grown_trans; try eassumption; eapply grown_trans; eassumption.
Qed.

(** X16: a run of [Generate] that returns nil has performed, in this
    order: the creation of the output directory if the output path did not
    exist; one write for each configured page; for each Post discovered in
    the file system as it was at the start, in discovery order, its
    directory, its page and the copy of its image; one copy for each
    static path. *)
Theorem Generate_ops (st st' : State) :
  Generate e st = (None, st') ->
  exists posts pageEvents postTemplate,
    DiscoverPosts e (fs st) = inr posts /\
    Forall2 (pageEvent e posts) (Pages e) pageEvents /\
    ops st' =
    ops st
      ++ match lookup (OutputOrDefault e) (fs st) with
         | Some _ => []
         | None => [EvMakeDir (OutputOrDefault e)]
         end
      ++ pageEvents
      ++ flat_map (postEvents e postTemplate posts) (seq 0 (List.length posts))
      ++ copyEvents e (StaticsOrDefault e).
Proof.
  unfold Generate. intros Hrun.
  destruct (DiscoverPosts e (fs st)) as [err | posts]; [discriminate|].
  assert (Hcreate :
    ops (snd (CreateOutputPath e st)) =
    ops st ++ match lookup (OutputOrDefault e) (fs st) with
              | Some _ => []
              | None => [EvMakeDir (OutputOrDefault e)]
              end).
  { unfold CreateOutputPath, os_Stat.
    destruct (lookup (OutputOrDefault e) (fs st)).
    - simpl. symmetry. apply app_nil_r.
    - pose proof (MakeDir_ops (OutputOrDefault e) st) as Hops.
      destruct (MakeDir (OutputOrDefault e) st). exact Hops. }
  destruct (CreateOutputPath e st) as [[err|] st1]; [discriminate|].
  simpl in Hcreate.
  destruct (Render e posts st1) as [[err|] st2] eqn:Hrender; [discriminate|].
  destruct (@Render_ops _ _ e posts st1 st2 Hrender)
    as (partials & pageEvents & stp & postTemplate & _ & Hpages & _ & Hops2).
  destruct (@CopyStatics_loop_ops _ _ e (StaticsOrDefault e) st2)
    as (k & _ & Hops3 & Hall).
  fold (CopyStatics e st2) in Hops3, Hall.
  destruct (CopyStatics e st2) as [[err|] st3]; [discriminate|].
  injection Hrun as <-. simpl in Hops3, Hall.
  rewrite (Hall eq_refl), firstn_all in Hops3.
  exists posts, pageEvents, postTemplate. repeat split; try assumption.
  rewrite Hops3, Hops2, Hcreate, <- !app_assoc. reflexivity.
Qed.

End PipelineMore.

(** ** The further properties at work on the example trees *)

Lemma TreeHost_makeDir_creates (p : Path) (fs fs' : Node) :
  TreeHost.makeDir p fs = (None, fs') -> lookup p fs' <> None.
Proof.
  unfold TreeHost.makeDir.
  destruct (TreeHost.mkdirAll p fs) as [n|] eqn:Hmk; [|discriminate].
  intros Heq. injection Heq as <-.
  destruct (mkdirAll_directory p fs Hmk) as (t & es & ->). discriminate.
Qed.

(** X2 at work: the second partial of [Examples.themedBlog] is missing. *)
Lemma ReadPartials_first_failure_witness :
  ReadPartials Examples.themedBlog Examples.themed
    = inl (Wrapped (PathError "open" ["layout"; "missing.html"])).
Proof.
  apply (@ReadPartials_first_failure TreeHost.image TreeHost.host Examples.themedBlog Examples.themed
           [["layout"; "header.html"]] ["layout"; "missing.html"] []
           (PathError "open" ["layout"; "missing.html"]));
    [ reflexivity
    | constructor; [eexists; reflexivity | constructor]
    | reflexivity ].
Defined.

(** X3 at work: a template path that does not exist. *)
Lemma CompileTemplate_errors_wrapped_witness :
  exists cause,
    Wrapped (PathError "open" ["layout"; "none.html"]) = exception_wrap cause.
Proof.
  apply (@CompileTemplate_errors_wrapped TreeHost.image TreeHost.host ["layout"; "none.html"] []
           Examples.themed).
  reflexivity.
Defined.


(** X6 at work: the title of [images/c] comes from its metadata file. *)
Lemma ReadImage_keeps_metadata_witness :
  Post_Meta (Examples.postOf ["images"; "c"] Examples.site) =
  setPosted (Posted (Post_Meta (Examples.postOf ["images"; "c"] Examples.site)))
            (TreeHost.setTitle "Sunset" Meta_zero).
Proof.
  destruct (@ReadImage_keeps_metadata TreeHost.image TreeHost.host ["images"; "c"] Examples.site
              (Examples.listingOf ["images"; "c"] Examples.site)
              (Examples.postOf ["images"; "c"] Examples.site))
    as [Hmeta _]; [reflexivity | distinct_names | reflexivity |].
  apply (Hmeta (mkFileInfo "meta.yml" 31%Z false));
    [right; left; reflexivity | reflexivity | reflexivity].
Defined.

(** X7 at work: [images/d] holds [1.jpg], which does not decode, and
    [2.jpg], which does. *)
Lemma ReadImage_no_fallback_witness :
  ReadImage_files ["images"; "d"] Examples.damaged
    [mkFileInfo "1.jpg" 61%Z false; mkFileInfo "2.jpg" 62%Z false]
    = inl (LibraryError "image: unknown format").
Proof.
  destruct (@ReadImage_no_fallback TreeHost.image TreeHost.host
              ["images"; "d"] Examples.damaged eq_refl
              [] [mkFileInfo "2.jpg" 62%Z false] (mkFileInfo "1.jpg" 61%Z false)
              (LibraryError "image: unknown format"))
    as [_ Herr]; [constructor | reflexivity | reflexivity |].
  apply Herr. constructor.
Defined.

(** X8 at work: the two directories below [images] in [Examples.nested]. *)
Lemma DiscoverPosts_one_post_per_directory_witness :
  Forall2 (fun dir post => ReadImage dir Examples.nested = inr post)
    [["images"; "a"]; ["images"; "a"; "b"]]
    (Examples.the [] (DiscoverPosts Examples.blog Examples.nested)).
Proof.
  exact (@DiscoverPosts_one_post_per_directory TreeHost.image TreeHost.host Examples.blog Examples.nested
           (DirNode 2%Z
              [("a", DirNode 3%Z [("a.jpg", Examples.jpeg 10%Z);
                                  ("b", DirNode 4%Z [("b.jpg", Examples.jpeg 20%Z)])])])
           (Examples.the [] (DiscoverPosts Examples.blog Examples.nested))
           eq_refl eq_refl).
Defined.

(** X10 at work: the Post of [images/b] among those of [Examples.site]. *)
Lemma DiscoverPosts_originals_below_root_witness :
  exists extra,
    extra <> [] /\
    Post_Original (Examples.postOf ["images"; "b"] Examples.site) =
    ImagesOrDefault Examples.blog ++ extra
      ++ [Post_File (Examples.postOf ["images"; "b"] Examples.site)].
Proof.
  apply (@DiscoverPosts_originals_below_root TreeHost.image TreeHost.host Examples.blog Examples.site
           Examples.sitePosts (Examples.postOf ["images"; "b"] Examples.site));
    [reflexivity | right; left; reflexivity].
Defined.

(** X12 at work: [Examples.nested] has no output directory yet. *)
Lemma CreateOutputPath_idempotent_witness :
  CreateOutputPath Examples.blog
    (snd (CreateOutputPath Examples.blog (mkState Examples.nested [])))
  = (None, snd (CreateOutputPath Examples.blog (mkState Examples.nested []))).
Proof.
  apply (@CreateOutputPath_idempotent TreeHost.image TreeHost.host Examples.blog
           TreeHost_makeDir_creates (mkState Examples.nested [])).
  reflexivity.
Defined.

(** X13 at work: the middle post of [Examples.site]. *)
Lemma Render_postData_in_range_witness :
  Render_postData_checked Examples.blog Examples.sitePosts (Z.of_nat 1)
    (nth 1 Examples.sitePosts Post_zero) =
  Some (Render_postData Examples.blog Examples.sitePosts (Z.of_nat 1)
          (nth 1 Examples.sitePosts Post_zero)).
Proof.
  apply (@Render_postData_in_range TreeHost.image Examples.blog Examples.sitePosts 1%nat).
  vm_compute. lia.
Defined.

(** X16 at work: the run of [Generate] on [Examples.site]. *)
Lemma Generate_ops_witness :
  exists posts pageEvents postTemplate,
    DiscoverPosts Examples.blog (fs Examples.start) = inr posts /\
    Forall2 (pageEvent Examples.blog posts) (Pages Examples.blog) pageEvents /\
    ops (snd (Generate Examples.blog Examples.start)) =
    ops Examples.start
      ++ match lookup (OutputOrDefault Examples.blog) (fs Examples.start) with
         | Some _ => []
         | None => [EvMakeDir (OutputOrDefault Examples.blog)]
         end
      ++ pageEvents
      ++ flat_map (postEvents Examples.blog postTemplate posts)
           (seq 0 (List.length posts))
      ++ copyEvents Examples.blog (StaticsOrDefault Examples.blog).
Proof.
  apply (@Generate_ops TreeHost.image TreeHost.host Examples.blog Examples.start
           (snd (Generate Examples.blog Examples.start))).
  vm_compute. reflexivity.
Defined.
